(** * A shallow embedding of [app/main.py], the interactive shell.

    The development follows the source top to bottom: Python primitives
    used by the program, the executable resolver with its cache, the
    builtins, the redirection parser, command execution and the read-eval
    loop of [main].  Theorems about each part come after the definitions. *)

From Stdlib Require Import String Ascii List ZArith Lia Bool DecimalString.
From stdpp Require Import base option gmap strings list.
From Equations Require Import Equations.

Open Scope string_scope.

(** ** Python values and primitives *)

(** Exceptions that the program can see.  [SystemExit] derives from
    [BaseException] only; the others derive from [Exception]. *)
Inductive exn :=
  | SystemExit (code : Z)
  | IndexError
  | TypeError (msg : string)
  | ValueError (msg : string)
  | FileNotFoundError (msg : string)
  | OSError (msg : string).

Definition is_Exception (e : exn) : bool :=
  match e with
  | SystemExit _ => false
  | _ => true
  end.

(** A call either returns a value or raises. *)
Inductive result (A : Type) :=
  | Ok (a : A)
  | Raise (e : exn).
Arguments Ok {A} a.
Arguments Raise {A} e.

#[global] Instance result_ret : MRet result := fun A a => Ok a.
#[global] Instance result_bind : MBind result := fun A B f m =>
  match m with
  | Ok a => f a
  | Raise e => Raise e
  end.

(** [l[k]] on a list: raises [IndexError] out of range. *)
Definition getitem {A} (l : list A) (k : nat) : result A :=
  match l !! k with
  | Some a => Ok a
  | None => Raise IndexError
  end.

(** [t.startswith(p)] *)
Definition startswith (p t : string) : bool := String.prefix p t.

(** [t[n:]] *)
Fixpoint slice_from (n : nat) (t : string) : string :=
  match n, t with
  | 0, _ => t
  | S n', String _ t' => slice_from n' t'
  | S _, EmptyString => EmptyString
  end.

(** [t.split(sep, 1)] for a non-empty separator: cut at the first
    occurrence of [sep], or the whole string in a singleton. *)
Definition split1 (sep t : string) : list string :=
  match String.index 0 sep t with
  | Some k => [String.substring 0 k t; slice_from (k + String.length sep) t]
  | None => [t]
  end.

(** Truth value of a string: non-empty. *)
Definition truthy (s : string) : bool :=
  match s with
  | EmptyString => false
  | String _ _ => true
  end.

(** [s or y], where [y] may be [None]. *)
Definition str_or (s : string) (y : option string) : option string :=
  if truthy s then Some s else y.

(** The line feed that [print] appends. *)
Definition nl : string := String (ascii_of_nat 10) EmptyString.

(** [" ".join(args)] *)
Definition join_with (sep : string) (l : list string) : string :=
  String.concat sep l.

(** [str(n)] for a length. *)
Definition str_of_nat (n : nat) : string :=
  NilZero.string_of_uint (Nat.to_uint n).

(** [str(z)] for an integer. *)
Definition str_of_Z (z : Z) : string :=
  NilZero.string_of_int (Z.to_int z).

(** The text of [str(e)] used by the f-strings of the program. *)
Definition exn_text (e : exn) : string :=
  match e with
  | SystemExit code => str_of_Z code
  | IndexError => "list index out of range"
  | TypeError msg | ValueError msg | FileNotFoundError msg | OSError msg => msg
  end.

(** Characters that [str.strip] and [int] treat as white space, among
    the ASCII ones: TAB, LF, VT, FF, CR, FS, GS, RS, US and the space. *)
Definition is_space (c : ascii) : bool :=
  let n := nat_of_ascii c in
  (((9 <=? n) && (n <=? 13)) || ((28 <=? n) && (n <=? 32)))%nat.

Fixpoint lstrip (s : string) : string :=
  match s with
  | String c s' => if is_space c then lstrip s' else s
  | EmptyString => EmptyString
  end.

Fixpoint rstrip (s : string) : string :=
  match s with
  | String c s' =>
      match rstrip s' with
      | EmptyString => if is_space c then EmptyString else String c EmptyString
      | r => String c r
      end
  | EmptyString => EmptyString
  end.

(** [s.strip()] *)
Definition strip (s : string) : string := rstrip (lstrip s).

Definition digit_value (c : ascii) : option Z :=
  let n := nat_of_ascii c in
  if ((48 <=? n) && (n <=? 57))%nat then Some (Z.of_nat (n - 48)) else None.

(** Decimal digits with single underscores between digits; [prev] tells
    whether the previous character was a digit. *)
Fixpoint digits_value (acc : Z) (prev : bool) (s : string) : option Z :=
  match s with
  | EmptyString => if prev then Some acc else None
  | String c s' =>
      if Ascii.eqb c "_"%char then
        if prev then digits_value acc false s' else None
      else
        match digit_value c with
        | Some d => digits_value (10 * acc + d) true s'
        | None => None
        end
  end.

(** [int(s)] on a string, base ten: surrounding white space, an optional
    sign, then digits.  Strings are byte strings here: digits and spaces
    outside ASCII, and the interpreter's limit on the number of digits,
    are outside the model. *)
Definition py_int (s : string) : result Z :=
  let bad :=
    Raise (ValueError
             ("invalid literal for int() with base 10: '" ++ s ++ "'")) in
  let of_digits (neg : bool) (d : string) :=
    match digits_value 0 false d with
    | Some z => Ok (if neg then (- z)%Z else z)
    | None => bad
    end in
  match strip s with
  | String "+"%char d => of_digits false d
  | String "-"%char d => of_digits true d
  | d => of_digits false d
  end.

(** [s.split(sep)] on a one-character separator (every occurrence). *)
Fixpoint split_all (sep : ascii) (s : string) : list string :=
  match s with
  | EmptyString => [EmptyString]
  | String c s' =>
      if Ascii.eqb c sep then EmptyString :: split_all sep s'
      else
        match split_all sep s' with
        | w :: ws => String c w :: ws
        | [] => [String c EmptyString]
        end
  end.

(** [os.pathsep], [os.path.isabs] and [os.path.join] of two components,
    as [posixpath] defines them. *)
Definition pathsep : ascii := ":"%char.

Definition isabs (p : string) : bool := startswith "/" p.

Fixpoint endswith_slash (a : string) : bool :=
  match a with
  | EmptyString => false
  | String c EmptyString => Ascii.eqb c "/"%char
  | String _ a' => endswith_slash a'
  end.

Definition path_join (a b : string) : string :=
  if startswith "/" b then b
  else if negb (truthy a) || endswith_slash a then a ++ b
  else a ++ "/" ++ b.

(** File modes that the program passes to [open]. *)
Inductive mode := ModeA | ModeW | ModeR.

Definition mode_text (m : mode) : string :=
  match m with
  | ModeA => "a"
  | ModeW => "w"
  | ModeR => "r"
  end.

#[global] Instance mode_eq_dec : EqDecision mode.
Proof. solve_decision. Defined.

(** ** The world outside the interpreter *)

(** A call into the operating system or into a library either succeeds
    or fails with the text of the error it raises. *)
Inductive os_result (A : Type) :=
  | Success (a : A)
  | Failure (msg : string).
Arguments Success {A} a.
Arguments Failure {A} msg.

(** How [subprocess.run] ends: the child ran and exited with a return
    code, the program file was not there any more, or another error. *)
Inductive spawn_result (S : Type) :=
  | Exited (returncode : Z) (os' : S)
  | SpawnNotFound (msg : string)
  | SpawnFailed (msg : string).
Arguments Exited {S} returncode os'.
Arguments SpawnNotFound {S} msg.
Arguments SpawnFailed {S} msg.

(** The file system, the process table and the library calls whose code
    is not part of the program.  [os_state] is the state of the operating
    system as this process sees it, the working directory included. *)
Class Runtime := {
  os_state : Type;
  path_exists : os_state → string → bool;
  path_isfile : os_state → string → bool;
  path_isdir : os_state → string → bool;
  access_x : os_state → string → bool;
  getcwd : os_state → os_result string;
  chdir : os_state → string → os_result os_state;
  open_file : os_state → string → mode → os_result os_state;
  expanduser : os_state → gmap string string → string → string;
  subprocess_run :
    os_state → gmap string string → list string → spawn_result os_state;
  shlex_split : string → os_result (list string);
  repr_list : list string → string;
}.

(** ** The state of the shell process *)

Inductive std_stream := Stdin | Stdout | Stderr.

#[global] Instance std_stream_eq_dec : EqDecision std_stream.
Proof. solve_decision. Defined.

(** What a [sys.std*] variable can refer to: the stream the process
    started with, or a file object made by [open], numbered in the order
    of creation. *)
Inductive handle :=
  | Console (s : std_stream)
  | FileObj (id : nat).

#[global] Instance handle_eq_dec : EqDecision handle.
Proof. solve_decision. Defined.

(** A file object made by [open]. *)
Record file_obj := FileObject {
  fo_name : string;
  fo_mode : mode;
  fo_closed : bool;
}.

Inductive probe := ProbeExists | ProbeAccessX | ProbeIsFile | ProbeIsDir.

(** What the process does that can be seen from outside or that the
    theorems ask about, kept newest first in [trace]: text written to a
    stream, a test of the file system, an assignment to one of the
    [sys.std*] variables, a call of [execute_command], and a call of
    [subprocess.run]. *)
Inductive event :=
  | EvWrite (h : handle) (text : string)
  | EvProbe (k : probe) (path : string)
  | EvSetStream (s : std_stream) (h : handle)
  | EvExecute (cmd_name : string) (args : list string)
  | EvSpawn (argv : list string).

Section Shell.
Context `{RT : Runtime}.

Record shell := Shell {
  os : os_state;
  environ : gmap string string;
  DEBUG : bool;
  exec_cache : gmap string (option string);
  sys_stdin : handle;
  sys_stdout : handle;
  sys_stderr : handle;
  files : list file_obj;
  trace : list event;
}.

Definition set_os (o : os_state) (st : shell) : shell :=
  {| os := o; environ := environ st; DEBUG := DEBUG st;
     exec_cache := exec_cache st; sys_stdin := sys_stdin st;
     sys_stdout := sys_stdout st; sys_stderr := sys_stderr st;
     files := files st; trace := trace st |}.

Definition set_environ (e : gmap string string) (st : shell) : shell :=
  {| os := os st; environ := e; DEBUG := DEBUG st;
     exec_cache := exec_cache st; sys_stdin := sys_stdin st;
     sys_stdout := sys_stdout st; sys_stderr := sys_stderr st;
     files := files st; trace := trace st |}.

Definition set_exec_cache (c : gmap string (option string)) (st : shell)
  : shell :=
  {| os := os st; environ := environ st; DEBUG := DEBUG st;
     exec_cache := c; sys_stdin := sys_stdin st;
     sys_stdout := sys_stdout st; sys_stderr := sys_stderr st;
     files := files st; trace := trace st |}.

Definition set_files (fs : list file_obj) (st : shell) : shell :=
  {| os := os st; environ := environ st; DEBUG := DEBUG st;
     exec_cache := exec_cache st; sys_stdin := sys_stdin st;
     sys_stdout := sys_stdout st; sys_stderr := sys_stderr st;
     files := fs; trace := trace st |}.

Definition log (e : event) (st : shell) : shell :=
  {| os := os st; environ := environ st; DEBUG := DEBUG st;
     exec_cache := exec_cache st; sys_stdin := sys_stdin st;
     sys_stdout := sys_stdout st; sys_stderr := sys_stderr st;
     files := files st; trace := e :: trace st |}.

Definition get_stream (s : std_stream) (st : shell) : handle :=
  match s with
  | Stdin => sys_stdin st
  | Stdout => sys_stdout st
  | Stderr => sys_stderr st
  end.

(** [sys.stdX = h] *)
Definition set_stream (s : std_stream) (h : handle) (st : shell) : shell :=
  log (EvSetStream s h)
    {| os := os st; environ := environ st; DEBUG := DEBUG st;
       exec_cache := exec_cache st;
       sys_stdin := if decide (s = Stdin) then h else sys_stdin st;
       sys_stdout := if decide (s = Stdout) then h else sys_stdout st;
       sys_stderr := if decide (s = Stderr) then h else sys_stderr st;
       files := files st; trace := trace st |}.

(** A freshly started shell. *)
Definition initial (o : os_state) (env : gmap string string) : shell :=
  {| os := o; environ := env;
     DEBUG := match env !! "DEBUG" with
              | Some v => truthy v
              | None => false
              end;
     exec_cache := ∅;
     sys_stdin := Console Stdin; sys_stdout := Console Stdout;
     sys_stderr := Console Stderr; files := []; trace := [] |}.

(** [print(msg)] and [print(msg, file=sys.stderr)] *)
Definition print (msg : string) (st : shell) : shell :=
  log (EvWrite (sys_stdout st) (msg ++ nl)) st.

Definition print_err (msg : string) (st : shell) : shell :=
  log (EvWrite (sys_stderr st) (msg ++ nl)) st.

Definition debug (msg : string) (st : shell) : shell :=
  if DEBUG st then print_err ("[DEBUG] " ++ msg) st else st.

Definition get_env (key default : string) (st : shell) : string :=
  match environ st !! key with
  | Some val => val
  | None => default
  end.

(** ** PATH utilities *)

Definition get_path_dirs (st : shell) : list string :=
  let raw := get_env "PATH" "" st in
  if truthy raw then split_all pathsep raw else [].

(** The three file-system tests; each call is recorded. *)
Definition os_path_exists (p : string) (st : shell) : bool * shell :=
  (path_exists (os st) p, log (EvProbe ProbeExists p) st).

Definition os_access_x (p : string) (st : shell) : bool * shell :=
  (access_x (os st) p, log (EvProbe ProbeAccessX p) st).

Definition os_path_isfile (p : string) (st : shell) : bool * shell :=
  (path_isfile (os st) p, log (EvProbe ProbeIsFile p) st).

Definition os_path_isdir (p : string) (st : shell) : bool * shell :=
  (path_isdir (os st) p, log (EvProbe ProbeIsDir p) st).

(** [os.path.exists(p) and os.access(p, os.X_OK) and os.path.isfile(p)],
    evaluated left to right and stopping at the first false test. *)
Definition is_executable_file (p : string) (st : shell) : bool * shell :=
  let '(e, st1) := os_path_exists p st in
  if e then
    let '(x, st2) := os_access_x p st1 in
    if x then os_path_isfile p st2 else (false, st2)
  else (false, st1).

(** The [for d in get_path_dirs()] loop: [Some candidate] when the loop
    returns from inside, [None] when it runs to its end. *)
Fixpoint search_path_dirs (name : string) (dirs : list string) (st : shell)
  : option string * shell :=
  match dirs with
  | [] => (None, st)
  | d :: dirs' =>
      if negb (truthy d) then search_path_dirs name dirs' st
      else
        let candidate := path_join d name in
        let '(found, st1) := is_executable_file candidate st in
        if found then
          let st2 :=
            debug ("find_executable_in_path: found " ++ candidate) st1 in
          (Some candidate,
           set_exec_cache (<[name := Some candidate]> (exec_cache st2)) st2)
        else search_path_dirs name dirs' st1
  end.

Definition find_executable_in_path (name : string) (st : shell)
  : option string * shell :=
  match exec_cache st !! name with
  | Some cached => (cached, st)
  | None =>
      if isabs name then
        let '(found, st1) := is_executable_file name st in
        if found then
          (Some name,
           set_exec_cache (<[name := Some name]> (exec_cache st1)) st1)
        else (None, st1)
      else
        match search_path_dirs name (get_path_dirs st) st with
        | (Some candidate, st1) => (Some candidate, st1)
        | (None, st1) =>
            (None, set_exec_cache (<[name := None]> (exec_cache st1)) st1)
        end
  end.

(** ** Builtin implementations *)

(** The keys of [shell_builtins]. *)
Inductive builtin :=
  | BuiltinEcho | BuiltinExit | BuiltinType | BuiltinPwd | BuiltinCd.

Definition shell_builtins : list (string * builtin) :=
  [("echo", BuiltinEcho); ("exit", BuiltinExit); ("type", BuiltinType);
   ("pwd", BuiltinPwd); ("cd", BuiltinCd)].

Fixpoint assoc {A} (k : string) (l : list (string * A)) : option A :=
  match l with
  | [] => None
  | (k', a) :: l' => if String.eqb k k' then Some a else assoc k l'
  end.

(** [os.getcwd()], which raises when the directory is gone. *)
Definition os_getcwd (st : shell) : result string :=
  match getcwd (os st) with
  | Success d => Ok d
  | Failure msg => Raise (OSError msg)
  end.

Definition builtin_echo (args : list string) (st : shell)
  : result unit * shell :=
  (Ok tt, print (join_with " " args) st).

Definition builtin_exit (args : list string) (st : shell)
  : result unit * shell :=
  if (length args =? 0)%nat then (Raise (SystemExit 0), st)
  else if (1 <? length args)%nat then
    (Ok tt,
     print ("exit: Invalid number of arguments. Expected 1, given "
            ++ str_of_nat (length args)) st)
  else
    match getitem args 0 with
    | Raise e => (Raise e, st)
    | Ok a =>
        match py_int a with
        | Ok code => (Raise (SystemExit code), st)
        | Raise (ValueError _) =>
            (Ok tt, print ("exit: " ++ a ++ ": numeric argument required") st)
        | Raise e => (Raise e, st)
        end
    end.

Definition builtin_type (args : list string) (st : shell)
  : result unit * shell :=
  if negb (length args =? 1)%nat then
    (Ok tt,
     print ("type: Invalid number of arguments. Expected 1, given "
            ++ str_of_nat (length args)) st)
  else
    match getitem args 0 with
    | Raise e => (Raise e, st)
    | Ok target =>
        match assoc target shell_builtins with
        | Some _ => (Ok tt, print (target ++ " is a shell builtin") st)
        | None =>
            let '(path, st1) := find_executable_in_path target st in
            match path with
            | Some p =>
                if truthy p then (Ok tt, print (target ++ " is " ++ p) st1)
                else (Ok tt, print (target ++ ": not found") st1)
            | None => (Ok tt, print (target ++ ": not found") st1)
            end
        end
    end.

(** The value that [builtin_pwd] returns is not used by its caller. *)
Definition builtin_pwd (args : list string) (st : shell)
  : result unit * shell :=
  match os_getcwd st with
  | Raise e => (Raise e, st)
  | Ok cwd => (Ok tt, print cwd st)
  end.

(** Lines 103 to 106 of [builtin_cd]: tilde expansion, then making the
    target absolute. *)
Definition cd_resolve (target : string) (st : shell) : result string :=
  let target :=
    if startswith "~" target then expanduser (os st) (environ st) target
    else target in
  if negb (isabs target) then
    cwd ← os_getcwd st; Ok (path_join cwd target)
  else Ok target.

(** [builtin_cd] from the point where [target] is chosen. *)
Definition cd_to (target : string) (st : shell) : result unit * shell :=
  match cd_resolve target st with
  | Raise e => (Raise e, st)
  | Ok target =>
      let '(e, st1) := os_path_exists target st in
      if negb e then
        (Ok tt, print ("cd: " ++ target ++ ": No such file or directory") st1)
      else
        let '(d, st2) := os_path_isdir target st1 in
        if negb d then
          (Ok tt, print ("cd: " ++ target ++ ": Cannot cd into a file") st2)
        else
          match chdir (os st2) target with
          | Success o' =>
              (Ok tt,
               set_environ (<["PWD" := target]> (environ st2)) (set_os o' st2))
          | Failure msg =>
              (Ok tt, print ("cd: " ++ target ++ ": " ++ msg) st2)
          end
  end.

Definition builtin_cd (args : list string) (st : shell)
  : result unit * shell :=
  if (length args =? 0)%nat then
    cd_to (get_env "HOME" (expanduser (os st) (environ st) "~") st) st
  else if (length args =? 1)%nat then
    match getitem args 0 with
    | Raise e => (Raise e, st)
    | Ok target => cd_to target st
    end
  else
    (Ok tt,
     print ("cd: Invalid number of arguments. Expected 0 or 1, given "
            ++ str_of_nat (length args)) st).

(** [shell_builtins[cmd_name](args)] *)
Definition call_builtin (b : builtin) (args : list string) (st : shell)
  : result unit * shell :=
  match b with
  | BuiltinEcho => builtin_echo args st
  | BuiltinExit => builtin_exit args st
  | BuiltinType => builtin_type args st
  | BuiltinPwd => builtin_pwd args st
  | BuiltinCd => builtin_cd args st
  end.

(** ** Redirection helpers *)

(** The object that [redirect_stdout_to(fobj)] and its two siblings
    return; nothing of their bodies runs before the context is entered. *)
Inductive context_manager :=
  | Redirect (s : std_stream) (fobj : handle).

(** Entering: [orig = sys.stdX; sys.stdX = fobj].  The saved [orig] is
    what the [finally] clause puts back. *)
Definition enter_context (c : context_manager) (st : shell)
  : (std_stream * handle) * shell :=
  match c with
  | Redirect s fobj => ((s, get_stream s st), set_stream s fobj st)
  end.

(** [for ctx in contexts: stack.enter_context(ctx)]; the callbacks are
    kept last entered first. *)
Fixpoint enter_contexts (contexts : list context_manager)
    (callbacks : list (std_stream * handle)) (st : shell)
  : list (std_stream * handle) * shell :=
  match contexts with
  | [] => (callbacks, st)
  | c :: contexts' =>
      let '(cb, st1) := enter_context c st in
      enter_contexts contexts' (cb :: callbacks) st1
  end.

(** Leaving the [with ExitStack()] block: every [finally] clause runs,
    last entered first. *)
Fixpoint exit_stack (callbacks : list (std_stream * handle)) (st : shell)
  : shell :=
  match callbacks with
  | [] => st
  | (s, orig) :: callbacks' => exit_stack callbacks' (set_stream s orig st)
  end.

(** [open(fname, mode)] *)
Definition py_open (fname : option string) (m : mode) (st : shell)
  : result handle * shell :=
  match fname with
  | None =>
      (Raise (TypeError
         "expected str, bytes or os.PathLike object, not NoneType"), st)
  | Some f =>
      match open_file (os st) f m with
      | Success o' =>
          (Ok (FileObj (length (files st))),
           set_files (files st ++ [FileObject f m false]) (set_os o' st))
      | Failure msg => (Raise (OSError msg), st)
      end
  end.

Definition mark_closed (fo : file_obj) : file_obj :=
  {| fo_name := fo_name fo; fo_mode := fo_mode fo; fo_closed := true |}.

(** [ff.close()] *)
Definition close (ff : handle) (st : shell) : shell :=
  match ff with
  | FileObj id => set_files (alter mark_closed id (files st)) st
  | Console _ => st
  end.

(** [for ff in files_to_close: ff.close()] *)
Fixpoint close_all (files_to_close : list handle) (st : shell) : shell :=
  match files_to_close with
  | [] => st
  | ff :: rest => close_all rest (close ff st)
  end.

(** ** Redirection parser *)

(** A [(fname, mode)] tuple; [fname] may be [None]. *)
Definition info : Type := option string * mode.

(** The variables of [parse_redirections] that live across iterations. *)
Record locals := Locals {
  i : nat;
  cleaned : list string;
  stdout_info : option info;
  stderr_info : option info;
  stdin_info : option info;
}.

Definition parse_init : locals :=
  {| i := 0; cleaned := []; stdout_info := None; stderr_info := None;
     stdin_info := None |}.

Definition set_stdout (x : info) (v : locals) : locals :=
  {| i := i v; cleaned := cleaned v; stdout_info := Some x;
     stderr_info := stderr_info v; stdin_info := stdin_info v |}.

Definition set_stderr (x : info) (v : locals) : locals :=
  {| i := i v; cleaned := cleaned v; stdout_info := stdout_info v;
     stderr_info := Some x; stdin_info := stdin_info v |}.

Definition set_stdin (x : info) (v : locals) : locals :=
  {| i := i v; cleaned := cleaned v; stdout_info := stdout_info v;
     stderr_info := stderr_info v; stdin_info := Some x |}.

Definition set_i (k : nat) (v : locals) : locals :=
  {| i := k; cleaned := cleaned v; stdout_info := stdout_info v;
     stderr_info := stderr_info v; stdin_info := stdin_info v |}.

Definition append_cleaned (t : string) (v : locals) : locals :=
  {| i := i v; cleaned := cleaned v ++ [t]; stdout_info := stdout_info v;
     stderr_info := stderr_info v; stdin_info := stdin_info v |}.

(** [advance = 1 if not rest else 0] *)
Definition advance_for (rest : string) : nat :=
  if truthy rest then 0 else 1.

(** The tuple of the "Separate tokens" arm. *)
Definition separate_tokens : list string :=
  [">"; ">>"; "1>"; "1>>"; "2>"; "2>>"; "<"].

(** The inner if-chain of the "Separate tokens" arm. *)
Definition separate_arm (t : string) (fname : option string) (v : locals)
  : locals :=
  if bool_decide (t ∈ [">"; "1>"]) then set_stdout (fname, ModeW) v
  else if bool_decide (t ∈ [">>"; "1>>"]) then set_stdout (fname, ModeA) v
  else if bool_decide (t = "2>") then set_stderr (fname, ModeW) v
  else if bool_decide (t = "2>>") then set_stderr (fname, ModeA) v
  else if bool_decide (t = "<") then set_stdin (fname, ModeR) v
  else v.

(** The if/elif chain on the token [t]: the updated variables, [handled]
    and [advance].  [with_separate] tells whether the last arm
    ("Separate tokens") is present; the source has it. *)
Definition dispatch (with_separate : bool) (t : string)
    (next_token : option string) (v : locals)
  : result (locals * bool * nat) :=
  if startswith "1>>" t || startswith ">>" t then
    rest ← getitem (split1 ">>" t) 1;
    Ok (set_stdout (str_or rest next_token, ModeA) v, true, advance_for rest)
  else if startswith "1>" t || startswith ">" t then
    rest ← getitem (split1 ">" t) 1;
    Ok (set_stdout (str_or rest next_token, ModeW) v, true, advance_for rest)
  else if startswith "2>>" t then
    let rest := slice_from 3 t in
    Ok (set_stderr (str_or rest next_token, ModeA) v, true, advance_for rest)
  else if startswith "2>" t then
    let rest := slice_from 2 t in
    Ok (set_stderr (str_or rest next_token, ModeW) v, true, advance_for rest)
  else if startswith "<" t then
    let rest := slice_from 1 t in
    Ok (set_stdin (str_or rest next_token, ModeR) v, true, advance_for rest)
  else if with_separate && bool_decide (t ∈ separate_tokens) then
    Ok (separate_arm t next_token v, true, 1)
  else
    Ok (v, false, 0).

(** One iteration of [while i < len(tokens)]. *)
Definition loop_body_gen (with_separate : bool) (tokens : list string)
    (v : locals) : result locals :=
  t ← getitem tokens (i v);
  let next_token := tokens !! (i v + 1) in
  '(v1, handled, advance) ← dispatch with_separate t next_token v;
  if handled : bool then Ok (set_i (i v1 + 1 + advance) v1)
  else Ok (set_i (i v1 + 1) (append_cleaned t v1)).

(** The loop body as the source has it. *)
Definition loop_body : list string → locals → result locals :=
  loop_body_gen true.

(** [while i < len(tokens): ...].  The recursion is on the distance of
    [i] from the end of the list, which every iteration shortens. *)
Equations? while_loop (with_separate : bool) (tokens : list string)
    (v : locals) : result locals by wf (length tokens - i v) lt :=
  while_loop with_separate tokens v with decide (i v < length tokens) := {
    | right _ => Ok v
    | left _ with Equations.Prop.Logic.inspect
                    (loop_body_gen with_separate tokens v) := {
        | exist _ (Raise e) _ => Raise e
        | exist _ (Ok v') Hbody => while_loop with_separate tokens v' } }.
Proof.
  clear while_loop.
  assert (i v < i v'); [|lia].
  unfold loop_body_gen, dispatch, separate_arm in Hbody.
  destruct (getitem tokens (i v)) as [t|]; simpl in Hbody; [|discriminate].
  repeat match type of Hbody with
         | context [if ?c then _ else _] => destruct c; simpl in Hbody
         | context [getitem ?l ?k] => destruct (getitem l k); simpl in Hbody
         end;
    try discriminate; injection Hbody as <-; simpl; lia.
Qed.

(** [info is not None and (info[0] is None or info[0] == "")] *)
Definition filename_missing (x : option info) : bool :=
  match x with
  | None => false
  | Some (None, _) => true
  | Some (Some fname, _) => negb (truthy fname)
  end.

(** The validation loop: the name of the first stream, in the order of
    the tuple, whose filename is missing. *)
Fixpoint validate (checks : list (option info * string)) : option string :=
  match checks with
  | [] => None
  | (x, name) :: checks' =>
      if filename_missing x then Some name else validate checks'
  end.

(** What [parse_redirections] returns:
    [(cleaned, stdout_info, stderr_info, stdin_info)]. *)
Definition parsed : Type :=
  list string * option info * option info * option info.

Definition parse_redirections_gen (with_separate : bool)
    (tokens : list string) (st : shell) : result parsed * shell :=
  match while_loop with_separate tokens parse_init with
  | Raise e => (Raise e, st)
  | Ok v =>
      match validate [(stdout_info v, "stdout"); (stderr_info v, "stderr");
                      (stdin_info v, "stdin")] with
      | Some name =>
          (Ok (cleaned v, None, None, None),
           print ("Error: no filename provided for " ++ name ++ " redirection")
                 st)
      | None =>
          (Ok (cleaned v, stdout_info v, stderr_info v, stdin_info v), st)
      end
  end.

(** The parser as the source has it. *)
Definition parse_redirections : list string → shell → result parsed * shell :=
  parse_redirections_gen true.

(** The parser with the "Separate tokens" arm deleted. *)
Definition parse_redirections_without_separate
  : list string → shell → result parsed * shell :=
  parse_redirections_gen false.

(** ** The token list as the specification reads it

    The definitions of this part do not come from the code.  They say in
    the words of the specification which tokens are redirection
    operators, which are arguments, and which operator is the last one
    for a stream; the theorems compare the parser with them. *)

(** The recognized forms, longest operator first: the stream, the mode
    and the text attached to the operator. *)
Definition classify (t : string) : option (std_stream * mode * string) :=
  if startswith "1>>" t then Some (Stdout, ModeA, slice_from 3 t)
  else if startswith ">>" t then Some (Stdout, ModeA, slice_from 2 t)
  else if startswith "1>" t then Some (Stdout, ModeW, slice_from 2 t)
  else if startswith ">" t then Some (Stdout, ModeW, slice_from 1 t)
  else if startswith "2>>" t then Some (Stderr, ModeA, slice_from 3 t)
  else if startswith "2>" t then Some (Stderr, ModeW, slice_from 2 t)
  else if startswith "<" t then Some (Stdin, ModeR, slice_from 1 t)
  else None.

(** The operator prefixes that the specification lists. *)
Definition operator_prefixes : list string :=
  [">"; ">>"; "1>"; "1>>"; "2>"; "2>>"; "<"].

(** No recognized prefix starts the token. *)
Definition plain_token (t : string) : bool :=
  forallb (fun p => negb (startswith p t)) operator_prefixes.

(** The redirection operators of a token list from left to right, each
    with its stream and its [(filename, mode)]: the filename is the
    attached text, or else the following token, which is then not read
    as an operator or an argument itself; it is absent when the list
    ends at the operator. *)
Fixpoint operators (tokens : list string) : list (std_stream * info) :=
  match tokens with
  | [] => []
  | t :: rest =>
      match classify t with
      | None => operators rest
      | Some (s, m, attached) =>
          if truthy attached then (s, (Some attached, m)) :: operators rest
          else
            match rest with
            | [] => [(s, (None, m))]
            | fname :: rest' => (s, (Some fname, m)) :: operators rest'
            end
      end
  end.

(** The tokens that are neither operators nor their filenames. *)
Fixpoint arguments (tokens : list string) : list string :=
  match tokens with
  | [] => []
  | t :: rest =>
      match classify t with
      | None => t :: arguments rest
      | Some (_, _, attached) =>
          if truthy attached then arguments rest
          else
            match rest with
            | [] => []
            | _ :: rest' => arguments rest'
            end
      end
  end.

(** Setting the variable of the stream [s]. *)
Definition set_info (s : std_stream) (x : info) (v : locals) : locals :=
  match s with
  | Stdout => set_stdout x v
  | Stderr => set_stderr x v
  | Stdin => set_stdin x v
  end.

(** [new] if it is there, else [old]. *)
Definition override (new old : option info) : option info :=
  match new with
  | Some x => Some x
  | None => old
  end.

(** The last operator that targets the stream [s], if there is one. *)
Definition last_for (s : std_stream) (ops : list (std_stream * info))
  : option info :=
  last (filter (λ o, o.1 = s) ops).*2.

(** The variables after the tokens [rest] have been read from the
    variables [v], with [k] for the index. *)
Definition finish (rest : list string) (v : locals) (k : nat) : locals :=
  let ops := operators rest in
  {| i := k;
     cleaned := cleaned v ++ arguments rest;
     stdout_info := override (last_for Stdout ops) (stdout_info v);
     stderr_info := override (last_for Stderr ops) (stderr_info v);
     stdin_info := override (last_for Stdin ops) (stdin_info v) |}.

(** [n] iterations of a loop body, stopping at the first exception. *)
Fixpoint iterate {A} (n : nat) (body : A → result A) (a : A) : result A :=
  match n with
  | 0 => Ok a
  | S n' =>
      match body a with
      | Ok a' => iterate n' body a'
      | Raise e => Raise e
      end
  end.

(** The operators that target the stream [s]. *)
Definition operators_for (s : std_stream) (tokens : list string)
  : list (std_stream * info) :=
  filter (λ o, o.1 = s) (operators tokens).

(** The first stream, in the order stdout, stderr, stdin, whose last
    operator has no filename. *)
Definition first_missing (tokens : list string) : option string :=
  let ops := operators tokens in
  validate [(last_for Stdout ops, "stdout"); (last_for Stderr ops, "stderr");
            (last_for Stdin ops, "stdin")].

(** The spec of the stream [s] in what the parser returns. *)
Definition stream_spec (s : std_stream) (r : parsed) : option info :=
  match r, s with
  | (_, so, _, _), Stdout => so
  | (_, _, se, _), Stderr => se
  | (_, _, _, si), Stdin => si
  end.

(** How far the index moves at the token [t]: one position for an
    argument or an operator with its filename attached, two for an
    operator whose filename is not attached. *)
Definition token_width (t : string) : nat :=
  match classify t with
  | None => 1
  | Some (_, _, attached) => if truthy attached then 1 else 2
  end.

(** ** Command execution *)

Definition execute_command (cmd_name : string) (args : list string)
    (st0 : shell) : result unit * shell :=
  let st := log (EvExecute cmd_name args) st0 in
  match assoc cmd_name shell_builtins with
  | Some b =>
      let st1 :=
        debug ("Executing builtin: " ++ cmd_name ++ " " ++ repr_list args) st in
      match call_builtin b args st1 with
      | (Ok _, st2) => (Ok tt, st2)
      | (Raise (SystemExit code), st2) => (Raise (SystemExit code), st2)
      | (Raise e, st2) =>
          (Ok tt, print_err (cmd_name ++ ": error: " ++ exn_text e) st2)
      end
  | None =>
      let '(path, st1) := find_executable_in_path cmd_name st in
      match path with
      | Some p =>
          if truthy p then
            let st2 :=
              debug ("Running external: " ++ p ++ " " ++ repr_list args) st1 in
            let st3 := log (EvSpawn (p :: args)) st2 in
            match subprocess_run (os st3) (environ st3) (p :: args) with
            | Exited returncode o' =>
                let st4 := set_os o' st3 in
                (Ok tt,
                 if negb (returncode =? 0)%Z then
                   debug ("Command exited with " ++ str_of_Z returncode) st4
                 else st4)
            | SpawnNotFound _ =>
                (Ok tt, print (cmd_name ++ ": command not found") st3)
            | SpawnFailed msg =>
                (Ok tt, print_err (cmd_name ++ ": error: " ++ msg) st3)
            end
          else (Ok tt, print (cmd_name ++ ": command not found") st1)
      | None => (Ok tt, print (cmd_name ++ ": command not found") st1)
      end
  end.

(** ** Main REPL *)

(** How a statement of the loop body ends. *)
Inductive completion :=
  | Normal
  | ContinueStmt
  | BreakStmt
  | Raised (e : exn).

Definition stream_name (s : std_stream) : string :=
  match s with
  | Stdin => "stdin"
  | Stdout => "stdout"
  | Stderr => "stderr"
  end.

(** [f"{fname}"] *)
Definition fname_text (fname : option string) : string :=
  match fname with
  | Some f => f
  | None => "None"
  end.

(** One of the three blocks [if X_info: ... try: f = open(fname, mode) ...
    except Exception as e: print(...); continue], on the lists
    [contexts] and [files_to_close] built so far. *)
Definition open_redirection (s : std_stream) (x : option info)
    (contexts : list context_manager) (files_to_close : list handle)
    (st : shell)
  : completion * list context_manager * list handle * shell :=
  match x with
  | None => (Normal, contexts, files_to_close, st)
  | Some (fname, m) =>
      match py_open fname m st with
      | (Ok f, st1) =>
          (Normal, (contexts ++ [Redirect s f])%list,
           (files_to_close ++ [f])%list, st1)
      | (Raise e, st1) =>
          if is_Exception e then
            (ContinueStmt, contexts, files_to_close,
             print_err ("Error opening " ++ fname_text fname ++ " for "
                        ++ stream_name s ++ " redirection: " ++ exn_text e)
                       st1)
          else (Raised e, contexts, files_to_close, st1)
      end
  end.

(** The [with ExitStack() as stack] statement. *)
Definition with_block (cmd_name : string) (args_clean : list string)
    (contexts : list context_manager) (files_to_close : list handle)
    (st : shell) : completion * shell :=
  let '(callbacks, st1) := enter_contexts contexts [] st in
  let '(r, st2) := execute_command cmd_name args_clean st1 in
  let '(c, st3) :=
    match r with
    | Ok _ => (Normal, st2)
    | Raise (SystemExit code) =>
        (Raised (SystemExit code), close_all files_to_close st2)
    | Raise e => (Raised e, st2)
    end in
  (c, exit_stack callbacks st3).

(** The body of the outer [try]; it also hands back [files_to_close] as
    it stands when the body is left, for the [finally] clause. *)
Definition try_body (cmd_name : string) (args_clean : list string)
    (so se si : option info) (st : shell)
  : completion * list handle * shell :=
  let '(c1, contexts, files_to_close, st1) :=
    open_redirection Stdout so [] [] st in
  match c1 with
  | Normal =>
      let '(c2, contexts, files_to_close, st2) :=
        open_redirection Stderr se contexts files_to_close st1 in
      match c2 with
      | Normal =>
          let '(c3, contexts, files_to_close, st3) :=
            open_redirection Stdin si contexts files_to_close st2 in
          match c3 with
          | Normal =>
              let '(c4, st4) :=
                with_block cmd_name args_clean contexts files_to_close st3 in
              (c4, files_to_close, st4)
          | _ => (c3, files_to_close, st3)
          end
      | _ => (c2, files_to_close, st2)
      end
  | _ => (c1, files_to_close, st1)
  end.

(** Lines 318 to 374: one command line, from its tokens on. *)
Definition command_line (cmd_name : string) (args : list string)
    (st : shell) : completion * shell :=
  match parse_redirections args st with
  | (Raise e, st1) => (Raised e, st1)
  | (Ok (args_clean, so, se, si), st1) =>
      let '(c, files_to_close, st2) :=
        try_body cmd_name args_clean so se si st1 in
      let c' :=
        match c with
        | Raised (SystemExit _) => BreakStmt
        | _ => c
        end in
      (c', close_all files_to_close st2)
  end.

(** What [input()] gives at one prompt; the end of the list is the end of
    the input. *)
Inductive input_event :=
  | Line (line : string)
  | Interrupt.

(** [not line.strip()] *)
Definition is_blank (line : string) : bool := negb (truthy (strip line)).

(** [while True: ...] over the lines that will be typed. *)
Fixpoint main_loop (inp : list input_event) (st0 : shell)
  : result unit * shell :=
  let st := log (EvWrite (sys_stdout st0) "$ ") st0 in
  match inp with
  | [] => (Ok tt, print "" st)
  | Interrupt :: inp' => main_loop inp' (print "" st)
  | Line line :: inp' =>
      if is_blank line then main_loop inp' st
      else
        match shlex_split line with
        | Failure msg => main_loop inp' (print ("parse error: " ++ msg) st)
        | Success [] => main_loop inp' st
        | Success (cmd_name :: args) =>
            match command_line cmd_name args st with
            | (BreakStmt, st') => (Ok tt, st')
            | (Raised e, st') => (Raise e, st')
            | (_, st') => main_loop inp' st'
            end
        end
  end.

(** [main()]; the set-up of the line editor has no part here. *)
Definition main (inp : list input_event) (st : shell) : result unit * shell :=
  match main_loop inp st with
  | (Ok _, st') => (Ok tt, debug "Shell exiting." st')
  | (Raise e, st') => (Raise e, st')
  end.

(** The status with which the interpreter ends after running the
    script, whose last statement is the call [main()]. *)
Definition exit_status (r : result unit) : Z :=
  match r with
  | Ok _ => 0
  | Raise (SystemExit code) => code
  | Raise _ => 1
  end.

Definition run_shell (inp : list input_event) (st : shell) : Z * shell :=
  let '(r, st') := main inp st in (exit_status r, st').

(** ** What the theorems about the loop look at *)

(** What the three [sys.std*] variables refer to, and the file objects. *)
Definition io (st : shell)
  : handle * handle * handle * list file_obj :=
  (sys_stdin st, sys_stdout st, sys_stderr st, files st).

Definition streams (st : shell) : handle * handle * handle :=
  (sys_stdin st, sys_stdout st, sys_stderr st).

(** The file objects that [open] made after the state [st], in [st']. *)
Definition opened_since (st st' : shell) : list file_obj :=
  drop (length (files st)) (files st').

(** The events that were added to the trace after the state [st]. *)
Definition events_since (st st' : shell) : list event :=
  take (length (trace st') - length (trace st)) (trace st').

Definition is_set_stream (e : event) : bool :=
  match e with
  | EvSetStream _ _ => true
  | _ => false
  end.

Definition is_execute (e : event) : bool :=
  match e with
  | EvExecute _ _ | EvSpawn _ => true
  | _ => false
  end.

(** Setting one component of the three streams. *)
Definition put (s : std_stream) (h : handle)
    (σ : handle * handle * handle) : handle * handle * handle :=
  match σ, s with
  | (_, o, e), Stdin => (h, o, e)
  | (i, _, e), Stdout => (i, h, e)
  | (i, o, _), Stderr => (i, o, h)
  end.

(** What running the callbacks of an exit stack does to the streams. *)
Fixpoint unwind (callbacks : list (std_stream * handle))
    (σ : handle * handle * handle) : handle * handle * handle :=
  match callbacks with
  | [] => σ
  | (s, orig) :: callbacks' => unwind callbacks' (put s orig σ)
  end.

(** The file objects with the numbers [n], [n + 1], ..., [n + k - 1]. *)
Definition file_objects (n k : nat) : list handle := FileObj <$> seq n k.

(** [files_to_close] holds exactly the file objects that were made
    after the state [st0], and the older ones are as they were. *)
Definition opened (st0 st : shell) (files_to_close : list handle) : Prop :=
  ∃ new, files st = (files st0 ++ new)%list ∧
         files_to_close = file_objects (length (files st0)) (length new).

(** The older file objects are as they were, the standard streams are
    the same, and every file object made in between is closed. *)
Definition settled (st st' : shell) : Prop :=
  streams st' = streams st ∧
  take (length (files st)) (files st') = files st ∧
  forallb fo_closed (opened_since st st') = true.

(** The redirection targets are opened in the order stdout, stderr,
    stdin: the first open that raises, with its stream, its filename and
    the exception, or [None] when every open succeeds. *)
Fixpoint first_open_failure (requests : list (std_stream * option info))
    (st : shell) : option (std_stream * option string * exn) :=
  match requests with
  | [] => None
  | (_, None) :: requests' => first_open_failure requests' st
  | (s, Some (fname, m)) :: requests' =>
      match py_open fname m st with
      | (Ok _, st1) => first_open_failure requests' st1
      | (Raise e, _) => Some (s, fname, e)
      end
  end.

(** The first open that raises for the argument tokens [args]. *)
Definition open_failure_of (args : list string) (st : shell)
  : option (std_stream * option string * exn) :=
  match parse_redirections args st with
  | (Ok (_, so, se, si), st1) =>
      first_open_failure [(Stdout, so); (Stderr, se); (Stdin, si)] st1
  | (Raise _, _) => None
  end.

(** Some redirection operator of the token list has neither an attached
    filename nor a token after it. *)
Definition has_dangling_operator (tokens : list string) : bool :=
  existsb (λ o : std_stream * info,
             match o.2.1 with
             | None => true
             | Some _ => false
             end) (operators tokens).

End Shell.

Arguments shell : clear implicits.
Arguments shell {RT}.

(** ** A small machine for worked examples

    The operating-system state is the working directory; the file system
    is fixed.  Lines are split at spaces, which is what [shlex.split]
    does on a line without quotes, backslashes or other white space. *)
Module Toy.

Definition dirs : list string := ["/"; "/bin"; "/home"; "/home/user"; "/tmp"].
Definition regular_files : list string := ["/bin/ls"; "/tmp/notes.txt"].
Definition executables : list string := ["/bin/ls"].

Definition isdir (p : string) : bool := bool_decide (p ∈ dirs).
Definition isfile (p : string) : bool := bool_decide (p ∈ regular_files).

Definition toy_open (cwd f : string) (m : mode) : os_result string :=
  if isdir f then Failure ("[Errno 21] Is a directory: " ++ f)
  else if bool_decide (m = ModeR) && negb (isfile f) then
    Failure ("[Errno 2] No such file or directory: " ++ f)
  else Success cwd.

Definition quote (a : string) : string := "'" ++ a ++ "'".

#[global] Instance runtime : Runtime := {|
  os_state := string;
  path_exists := λ _ p, isdir p || isfile p;
  path_isfile := λ _ p, isfile p;
  path_isdir := λ _ p, isdir p;
  access_x := λ _ p, isdir p || bool_decide (p ∈ executables);
  getcwd := λ cwd, Success cwd;
  chdir := λ _ p,
    if isdir p then Success p
    else Failure ("[Errno 20] Not a directory: " ++ p);
  open_file := toy_open;
  expanduser := λ _ _ p,
    if startswith "~" p then "/home/user" ++ slice_from 1 p else p;
  subprocess_run := λ cwd _ _, Exited 0 cwd;
  shlex_split := λ line, Success (String.words line);
  repr_list := λ l, "[" ++ join_with ", " (quote <$> l) ++ "]";
|}.

(** A shell started in [/home/user] with [PATH=/bin]. *)
Definition start : shell :=
  initial ("/home/user" : os_state) {[ "PATH" := "/bin" ]}.

End Toy.

(** ** Further notions for the properties of the parser *)

(** The table of operators: the stream and the mode of each. *)
Definition operator_meaning (op : string) : option (std_stream * mode) :=
  if bool_decide (op ∈ [">"; "1>"]) then Some (Stdout, ModeW)
  else if bool_decide (op ∈ [">>"; "1>>"]) then Some (Stdout, ModeA)
  else if bool_decide (op = "2>") then Some (Stderr, ModeW)
  else if bool_decide (op = "2>>") then Some (Stderr, ModeA)
  else if bool_decide (op = "<") then Some (Stdin, ModeR)
  else None.

(** The modes that go with a stream: reading for stdin, writing or
    appending for the two output streams. *)
Definition stream_mode_ok (s : std_stream) (m : mode) : bool :=
  match s, m with
  | Stdin, ModeR => true
  | Stdout, (ModeW | ModeA) => true
  | Stderr, (ModeW | ModeA) => true
  | _, _ => false
  end.

(** What the parser returns for the arguments [args] and one redirection
    [x] of the stream [s]. *)
Definition with_only (s : std_stream) (x : info) (args : list string)
  : parsed :=
  match s with
  | Stdout => (args, Some x, None, None)
  | Stderr => (args, None, Some x, None)
  | Stdin => (args, None, None, Some x)
  end.

(** The clean argument list in what the parser returns. *)
Definition cleaned_of (r : parsed) : list string := r.1.1.1.

(** ** Further notions for the properties of the resolver *)

(** The test that the resolver applies to a path, on the state [o] of
    the operating system. *)
Definition executable_at `{RT : Runtime} (o : os_state) (p : string) : bool :=
  path_exists o p && access_x o p && path_isfile o p.

(** The directory name has no path separator in it. *)
Fixpoint no_pathsep (d : string) : bool :=
  match d with
  | EmptyString => true
  | String c d' => negb (Ascii.eqb c pathsep) && no_pathsep d'
  end.

(** The event is a test of the file system on the path [p]. *)
Definition is_probe_of (p : string) (e : event) : bool :=
  match e with
  | EvProbe _ q => bool_decide (q = p)
  | _ => false
  end.

(** The event is text written to a stream or a test of the file system. *)
Definition is_write_or_probe (e : event) : bool :=
  match e with
  | EvWrite _ _ | EvProbe _ _ => true
  | _ => false
  end.

(** ** Further notions for the properties of command execution *)

(** The trace of [st'] is the trace of [st] with events on top of it
    that all satisfy [P]. *)
Definition added `{RT : Runtime} (P : event → bool) (st st' : shell) : Prop :=
  ∃ evs, trace st' = (evs ++ trace st)%list ∧ forallb P evs = true.



(** ** Further notions for the properties of the redirection helpers *)

(** The file of the latest redirection of the stream [s] among the
    contexts, if there is one. *)
Fixpoint latest_for (s : std_stream) (contexts : list context_manager)
  : option handle :=
  match contexts with
  | [] => None
  | Redirect s' fobj :: contexts' =>
      match latest_for s contexts' with
      | Some h => Some h
      | None => if decide (s' = s) then Some fobj else None
      end
  end.

(** A machine as small as can be, whose working directory has been
    removed: [os.getcwd] raises, nothing exists, nothing can be opened. *)
Definition lost_runtime : Runtime := {|
  os_state := unit;
  path_exists := λ _ _, false;
  path_isfile := λ _ _, false;
  path_isdir := λ _ _, false;
  access_x := λ _ _, false;
  getcwd := λ _, Failure "[Errno 2] No such file or directory";
  chdir := λ _ p, Failure ("[Errno 2] No such file or directory: " ++ p);
  open_file := λ _ f _, Failure ("[Errno 2] No such file or directory: " ++ f);
  expanduser := λ _ _ p, p;
  subprocess_run := λ _ _ _, SpawnNotFound "[Errno 2] No such file or directory";
  shlex_split := λ line, Success (String.words line);
  repr_list := λ l, "[" ++ join_with ", " (Toy.quote <$> l) ++ "]";
|}.

(** ** Tab completion *)

(** [completer] reads the keys of [shell_builtins], the directories of
    PATH and their entries.  Two library behaviours are kept abstract:
    [listdir], for [os.listdir] (it raises [FileNotFoundError] for a
    directory that is missing, and other errors for a path that is not a
    directory or may not be read), and [set_of], for the order in which
    the elements of [set(l)] are iterated. *)
Section Completer.
Context `{RT : Runtime}.
Variable listdir : os_state → string → result (list string).
Variable set_of : list string → list string.

(** [[f for f in names if f.startswith(text)]] *)
Definition matching (text : string) (names : list string) : list string :=
  List.filter (startswith text) names.

(** The [for d in get_path_dirs()] loop, with [paths] as accumulator:
    [FileNotFoundError] is caught and the loop goes on, any other
    exception leaves the function. *)
Fixpoint list_paths (text : string) (ds : list string)
    (paths : list string) (st : shell) : result (list string) :=
  match ds with
  | [] => Ok paths
  | d :: ds' =>
      match listdir (os st) d with
      | Ok fs => list_paths text ds' (paths ++ matching text fs)%list st
      | Raise (FileNotFoundError _) => list_paths text ds' paths st
      | Raise e => Raise e
      end
  end.

(** [options[state] if state < len(options) else None], for an integer
    [state]: a negative index counts from the end. *)
Definition option_at (options : list string) (state : Z)
  : result (option string) :=
  if (state <? Z.of_nat (length options))%Z then
    if (0 <=? state)%Z then o ← getitem options (Z.to_nat state); Ok (Some o)
    else if (0 <=? Z.of_nat (length options) + state)%Z then
      o ← getitem options (Z.to_nat (Z.of_nat (length options) + state));
      Ok (Some o)
    else Raise IndexError
  else Ok None.

Definition completer (text : string) (state : Z) (st : shell)
  : result (option string) :=
  let builtins := matching text (shell_builtins.*1) in
  paths ← (if (2 <=? String.length text)%nat
           then list_paths text (get_path_dirs st) [] st
           else Ok []);
  let options := (λ o, o ++ " ") <$> set_of (builtins ++ paths)%list in
  option_at options state.


(** [o] is an entry of a directory of PATH. *)
Definition on_path (o : string) (st : shell) : Prop :=
  ∃ d fs, d ∈ get_path_dirs st ∧ listdir (os st) d = Ok fs ∧ o ∈ fs.

End Completer.

Module ToyCompleter.

(** Entries of the directories of the toy machine; [/opt] is missing. *)
Definition listdir (cwd : @os_state Toy.runtime) (d : string)
  : result (list string) :=
  if String.eqb d "/bin" then Ok ["ls"; "echo"; "env"]
  else if String.eqb d "/tmp" then Ok ["notes.txt"]
  else if String.eqb d "/bin/ls" then
    Raise (OSError "[Errno 20] Not a directory: '/bin/ls'")
  else Raise (FileNotFoundError ("[Errno 2] No such file or directory: " ++ d)).

(** One order of iteration: first occurrences, in order. *)
Definition set_of (l : list string) : list string := remove_dups l.

End ToyCompleter.

(** * Theorems *)

Open Scope nat_scope.

(** ** Strings *)

Lemma prefix_split p t : String.prefix p t = true → ∃ r, t = p ++ r.
Proof.
  revert t. induction p as [|a p IH]; intros t H.
  - exists t. reflexivity.
  - destruct t as [|c t]; simpl in H; [discriminate|].
    destruct (ascii_dec a c) as [->|]; [|discriminate].
    destruct (IH t H) as [r ->]. exists r. reflexivity.
Qed.

Lemma split1_1gg t :
  startswith "1>>" t = true → getitem (split1 ">>" t) 1 = Ok (slice_from 3 t).
Proof. intros [r ->]%prefix_split. destruct r; reflexivity. Qed.

Lemma split1_gg t :
  startswith ">>" t = true → getitem (split1 ">>" t) 1 = Ok (slice_from 2 t).
Proof. intros [r ->]%prefix_split. destruct r; reflexivity. Qed.

Lemma split1_1g t :
  startswith "1>" t = true → getitem (split1 ">" t) 1 = Ok (slice_from 2 t).
Proof. intros [r ->]%prefix_split. destruct r; reflexivity. Qed.

Lemma split1_g t :
  startswith ">" t = true → getitem (split1 ">" t) 1 = Ok (slice_from 1 t).
Proof. intros [r ->]%prefix_split. destruct r; reflexivity. Qed.

(** ** The scanning loop *)

Lemma separate_token_classified t :
  t ∈ separate_tokens → classify t ≠ None.
Proof.
  unfold separate_tokens. rewrite !elem_of_cons, elem_of_nil.
  intros H; repeat destruct H as [->|H]; try discriminate. destruct H.
Qed.

Lemma dispatch_classify b t nt v :
  dispatch b t nt v =
    Ok match classify t with
       | Some (s, m, rest) =>
           (set_info s (str_or rest nt, m) v, true, advance_for rest)
       | None => (v, false, 0)
       end.
Proof.
  pose proof (separate_token_classified t) as Hsep.
  unfold dispatch, classify in *.
  destruct (startswith "1>>" t) eqn:H1; simpl.
  { rewrite (split1_1gg _ H1). reflexivity. }
  destruct (startswith ">>" t) eqn:H2; simpl.
  { rewrite (split1_gg _ H2). reflexivity. }
  destruct (startswith "1>" t) eqn:H3; simpl.
  { rewrite (split1_1g _ H3). reflexivity. }
  destruct (startswith ">" t) eqn:H4; simpl.
  { rewrite (split1_g _ H4). reflexivity. }
  destruct (startswith "2>>" t); [reflexivity|].
  destruct (startswith "2>" t); [reflexivity|].
  destruct (startswith "<" t); [reflexivity|].
  destruct b; simpl; [|reflexivity].
  case_bool_decide as Hin; [|reflexivity].
  destruct (Hsep Hin). reflexivity.
Qed.

Lemma loop_body_classify b tokens v t :
  tokens !! i v = Some t →
  loop_body_gen b tokens v =
    Ok match classify t with
       | Some (s, m, rest) =>
           set_i (i v + 1 + advance_for rest)
             (set_info s (str_or rest (tokens !! (i v + 1)), m) v)
       | None => set_i (i v + 1) (append_cleaned t v)
       end.
Proof.
  intros Ht. unfold loop_body_gen, getitem. rewrite Ht. simpl.
  rewrite dispatch_classify. simpl.
  destruct (classify t) as [[[s m] rest]|]; [|reflexivity].
  destruct s; reflexivity.
Qed.

Lemma while_loop_step b tokens v :
  while_loop b tokens v =
    if decide (i v < length tokens) then
      match loop_body_gen b tokens v with
      | Ok v' => while_loop b tokens v'
      | Raise e => Raise e
      end
    else Ok v.
Proof.
  rewrite while_loop_equation_1.
  destruct (decide (i v < length tokens)); simpl; [|reflexivity].
  destruct (loop_body_gen b tokens v); reflexivity.
Qed.

Lemma last_for_cons s0 s x ops :
  last_for s0 ((s, x) :: ops) =
    override (last_for s0 ops) (if decide (s = s0) then Some x else None).
Proof.
  unfold last_for. rewrite filter_cons. simpl.
  destruct (decide (s = s0)); [|destruct (last _); reflexivity].
  rewrite fmap_cons, last_cons. simpl.
  destruct (last _); reflexivity.
Qed.

Lemma override_set_info s0 s x new v :
  override new
    (match s0 with
     | Stdout => stdout_info (set_info s x v)
     | Stderr => stderr_info (set_info s x v)
     | Stdin => stdin_info (set_info s x v)
     end) =
  override (override new (if decide (s = s0) then Some x else None))
    (match s0 with
     | Stdout => stdout_info v
     | Stderr => stderr_info v
     | Stdin => stdin_info v
     end).
Proof. destruct new, s0, s; reflexivity. Qed.

(** Reading one more operator in front of [rest]. *)
Lemma finish_operator s x rest v k :
  {| i := k;
     cleaned := cleaned v ++ arguments rest;
     stdout_info :=
       override (last_for Stdout ((s, x) :: operators rest)) (stdout_info v);
     stderr_info :=
       override (last_for Stderr ((s, x) :: operators rest)) (stderr_info v);
     stdin_info :=
       override (last_for Stdin ((s, x) :: operators rest)) (stdin_info v) |}
  = finish rest (set_info s x v) k.
Proof.
  unfold finish. rewrite !last_for_cons.
  pose proof (override_set_info Stdout s x (last_for Stdout (operators rest)) v).
  pose proof (override_set_info Stderr s x (last_for Stderr (operators rest)) v).
  pose proof (override_set_info Stdin s x (last_for Stdin (operators rest)) v).
  simpl in *. f_equal; try congruence. destruct s; reflexivity.
Qed.

Lemma finish_set_i rest j v k : finish rest (set_i j v) k = finish rest v k.
Proof. reflexivity. Qed.

Lemma finish_cons_attached t s m att rest v k :
  classify t = Some (s, m, att) → truthy att = true →
  finish (t :: rest) v k = finish rest (set_info s (Some att, m) v) k.
Proof.
  intros Hc Ha. rewrite <- finish_operator.
  unfold finish. simpl. rewrite Hc, Ha. reflexivity.
Qed.

Lemma finish_cons_detached t s m att fname rest v k :
  classify t = Some (s, m, att) → truthy att = false →
  finish (t :: fname :: rest) v k =
    finish rest (set_info s (Some fname, m) v) k.
Proof.
  intros Hc Ha. rewrite <- finish_operator.
  unfold finish. simpl. rewrite Hc, Ha. reflexivity.
Qed.

Lemma finish_last_detached t s m att v k :
  classify t = Some (s, m, att) → truthy att = false →
  finish [t] v k = finish [] (set_info s (None, m) v) k.
Proof.
  intros Hc Ha. rewrite <- finish_operator.
  unfold finish. simpl. rewrite Hc, Ha. reflexivity.
Qed.

Lemma finish_cons_plain t rest v k :
  classify t = None →
  finish (t :: rest) v k = finish rest (append_cleaned t v) k.
Proof.
  intros Hc. unfold finish. simpl. rewrite Hc. simpl.
  rewrite <- app_assoc. reflexivity.
Qed.

Lemma finish_nil v : finish [] v (i v) = v.
Proof. destruct v. unfold finish. simpl. rewrite app_nil_r. reflexivity. Qed.

(** The loop reads the tokens from index [i] on as the specification
    does, and stops with the index at or past the end of the list. *)
Lemma while_loop_finish b tokens v :
  ∃ k, (length tokens ≤ k)%nat ∧
       while_loop b tokens v = Ok (finish (drop (i v) tokens) v k).
Proof.
  remember (length tokens - i v) as n eqn:Hn. revert v Hn.
  induction n as [n IH] using lt_wf_ind. intros v Hn.
  rewrite while_loop_step.
  destruct (decide (i v < length tokens)) as [Hlt|Hge].
  - destruct (lookup_lt_is_Some_2 tokens (i v) Hlt) as [t Ht].
    rewrite (loop_body_classify _ _ _ _ Ht), (drop_S _ _ _ Ht).
    destruct (classify t) as [[[s m] att]|] eqn:Hc.
    + unfold advance_for, str_or. destruct (truthy att) eqn:Ha.
      * edestruct (IH (length tokens - (i v + 1 + 0))) as (k & Hk & ->);
          [simpl; lia | reflexivity |].
        exists k. split; [exact Hk|]. simpl i.
        rewrite finish_set_i, (finish_cons_attached _ _ _ _ _ _ _ Hc Ha).
        repeat f_equal. lia.
      * edestruct (IH (length tokens - (i v + 1 + 1))) as (k & Hk & ->);
          [simpl; lia | reflexivity |].
        exists k. split; [exact Hk|]. simpl i.
        rewrite finish_set_i.
        replace (i v + 1) with (S (i v)) by lia.
        replace (S (i v) + 1) with (S (S (i v))) by lia.
        destruct (tokens !! S (i v)) as [fname|] eqn:Hnext.
        -- rewrite (drop_S _ _ _ Hnext).
           rewrite (finish_cons_detached _ _ _ _ _ _ _ _ Hc Ha). reflexivity.
        -- apply lookup_ge_None_1 in Hnext.
           rewrite !drop_ge by lia.
           rewrite (finish_last_detached _ _ _ _ _ _ Hc Ha). reflexivity.
    + edestruct (IH (length tokens - (i v + 1))) as (k & Hk & ->);
        [simpl; lia | reflexivity |].
      exists k. split; [exact Hk|]. simpl i.
      rewrite finish_set_i, (finish_cons_plain _ _ _ _ Hc).
      repeat f_equal. lia.
  - exists (i v). split; [lia|].
    rewrite drop_ge by lia. rewrite finish_nil. reflexivity.
Qed.

Lemma loop_body_advance b tokens v t :
  tokens !! i v = Some t →
  ∃ v', loop_body_gen b tokens v = Ok v' ∧ i v' = i v + token_width t.
Proof.
  intros Ht. rewrite (loop_body_classify _ _ _ _ Ht). eexists. split; [reflexivity|].
  unfold token_width, advance_for.
  destruct (classify t) as [[[s m] att]|]; simpl; [|reflexivity].
  destruct (truthy att); lia.
Qed.

Lemma token_width_bounds t : 1 ≤ token_width t ≤ 2.
Proof.
  unfold token_width. destruct (classify t) as [[[s m] att]|]; [|lia].
  destruct (truthy att); lia.
Qed.

(** The loop is a bounded iteration of its body. *)
Lemma while_loop_iterate b tokens v :
  ∃ n, n ≤ length tokens - i v ∧
       iterate n (loop_body_gen b tokens) v = while_loop b tokens v.
Proof.
  remember (length tokens - i v) as m eqn:Hm. revert v Hm.
  induction m as [m IH] using lt_wf_ind. intros v Hm.
  rewrite while_loop_step.
  destruct (decide (i v < length tokens)) as [Hlt|Hge].
  - destruct (lookup_lt_is_Some_2 tokens (i v) Hlt) as [t Ht].
    destruct (loop_body_advance b tokens v t Ht) as (v' & Hbody & Hi).
    pose proof (token_width_bounds t).
    destruct (IH (length tokens - i v')) with (v := v') as (n & Hn & Hrun);
      [lia | reflexivity |].
    exists (S n). split; [lia|]. simpl. rewrite Hbody. exact Hrun.
  - exists 0. split; [lia|]. reflexivity.
Qed.

(** C9: for every token list the scanning loop of [parse_redirections]
    ends without raising.  An iteration at a token moves the index [i]
    forward by one (an argument, or an operator with its filename
    attached) or by two (an operator whose filename is not attached), so
    at most [len(tokens)] iterations bring it to the end of the list, and
    the parser returns a result. *)
Theorem parse_redirections_terminates `{RT : Runtime} (tokens : list string) :
  (∀ v t, tokens !! i v = Some t →
     ∃ v', loop_body tokens v = Ok v' ∧ i v' = i v + token_width t ∧
           i v + 1 ≤ i v' ≤ i v + 2) ∧
  (∃ n v, n ≤ length tokens ∧
     iterate n (loop_body tokens) parse_init = Ok v ∧
     while_loop true tokens parse_init = Ok v ∧
     length tokens ≤ i v) ∧
  (∀ st : shell, ∃ r st', parse_redirections tokens st = (Ok r, st')).
Proof.
  split; [|split].
  - intros v t Ht.
    destruct (loop_body_advance true tokens v t Ht) as (v' & Hbody & Hi).
    pose proof (token_width_bounds t).
    exists v'. split; [exact Hbody|]. split; [exact Hi|lia].
  - destruct (while_loop_iterate true tokens parse_init) as (n & Hn & Hrun).
    destruct (while_loop_finish true tokens parse_init) as (k & Hk & Hend).
    exists n, (finish (drop (i parse_init) tokens) parse_init k).
    split; [lia|]. split; [unfold loop_body; congruence|].
    split; [exact Hend|exact Hk].
  - intros st. unfold parse_redirections, parse_redirections_gen.
    destruct (while_loop_finish true tokens parse_init) as (k & _ & ->).
    destruct (validate _); eauto.
Qed.

Lemma override_None_r x : override x None = x.
Proof. destruct x; reflexivity. Qed.

(** What the parser returns and prints, in the terms of the
    specification; it is the same with and without the last arm. *)
Lemma parse_redirections_spec `{RT : Runtime} b tokens (st : shell) :
  parse_redirections_gen b tokens st =
    let ops := operators tokens in
    match first_missing tokens with
    | Some name =>
        (Ok (arguments tokens, None, None, None),
         print ("Error: no filename provided for " ++ name ++ " redirection")
               st)
    | None =>
        (Ok (arguments tokens, last_for Stdout ops, last_for Stderr ops,
             last_for Stdin ops), st)
    end.
Proof.
  unfold parse_redirections_gen, first_missing.
  destruct (while_loop_finish b tokens parse_init) as (k & _ & ->).
  unfold finish. simpl. rewrite !override_None_r. reflexivity.
Qed.

Lemma plain_token_classify t : plain_token t = true → classify t = None.
Proof.
  unfold plain_token, operator_prefixes, classify. simpl.
  rewrite !andb_true_iff, !negb_true_iff.
  intros (Hg & Hgg & H1g & H1gg & H2g & H2gg & Hlt & _).
  rewrite H1gg, Hgg, H1g, Hg, H2gg, H2g, Hlt. reflexivity.
Qed.

Lemma plain_tokens_read tokens :
  forallb plain_token tokens = true →
  operators tokens = [] ∧ arguments tokens = tokens.
Proof.
  induction tokens as [|t tokens IH]; simpl; [auto|].
  rewrite andb_true_iff. intros [Ht Hrest].
  rewrite (plain_token_classify _ Ht).
  destruct (IH Hrest) as [-> ->]. auto.
Qed.

(** C6: when no token begins with one of the operator prefixes [>], [>>],
    [1>], [1>>], [2>], [2>>] and [<], the parser returns the token list
    as it is, the three redirection specs are absent, and nothing is
    printed. *)
Theorem parse_redirections_plain_tokens `{RT : Runtime}
    (tokens : list string) (st : shell) :
  forallb plain_token tokens = true →
  parse_redirections tokens st = (Ok (tokens, None, None, None), st).
Proof.
  intros Hplain. unfold parse_redirections.
  rewrite parse_redirections_spec. unfold first_missing. simpl.
  destruct (plain_tokens_read tokens Hplain) as [-> ->]. reflexivity.
Qed.

Lemma parse_redirections_plain_tokens_witness :
  forallb plain_token ["-n"; "a>b"; "x<y"; "2"] = true ∧
  parse_redirections ["-n"; "a>b"; "x<y"; "2"] Toy.start
    = (Ok (["-n"; "a>b"; "x<y"; "2"], None, None, None), Toy.start).
Proof.
  split; [reflexivity|].
  apply (parse_redirections_plain_tokens ["-n"; "a>b"; "x<y"; "2"] Toy.start).
  reflexivity.
Defined.

(** A bare operator is read by one of the prefix arms, with nothing
    attached. *)
Lemma separate_token_bare t :
  t ∈ separate_tokens →
  ∃ s m, classify t = Some (s, m, "") ∧
         ∀ nt v, separate_arm t nt v = set_info s (nt, m) v.
Proof.
  unfold separate_tokens. rewrite !elem_of_cons, elem_of_nil.
  intros H; repeat destruct H as [->|H]; [..|destruct H].
  - exists Stdout, ModeW. split; reflexivity.
  - exists Stdout, ModeA. split; reflexivity.
  - exists Stdout, ModeW. split; reflexivity.
  - exists Stdout, ModeA. split; reflexivity.
  - exists Stderr, ModeW. split; reflexivity.
  - exists Stderr, ModeA. split; reflexivity.
  - exists Stdin, ModeR. split; reflexivity.
Qed.

Lemma while_loop_without_separate tokens v :
  while_loop false tokens v = while_loop true tokens v.
Proof.
  remember (length tokens - i v) as m eqn:Hm. revert v Hm.
  induction m as [m IH] using lt_wf_ind. intros v Hm.
  rewrite (while_loop_step true), (while_loop_step false).
  destruct (decide (i v < length tokens)) as [Hlt|]; [|reflexivity].
  destruct (lookup_lt_is_Some_2 tokens (i v) Hlt) as [t Ht].
  destruct (loop_body_advance true tokens v t Ht) as (v' & Hbody & Hi).
  pose proof (token_width_bounds t).
  assert (loop_body_gen false tokens v = Ok v') as Hfalse.
  { rewrite (loop_body_classify false _ _ _ Ht).
    rewrite <- (loop_body_classify true _ _ _ Ht). exact Hbody. }
  rewrite Hfalse, Hbody.
  apply (IH (length tokens - i v')); [lia | reflexivity].
Qed.

(** C8: the "Separate tokens" arm of [parse_redirections] is never
    taken.  A token that is exactly one of the bare operators is handled
    by one of the [startswith] arms before it, with an empty attached
    text, so that the next token becomes the filename and the index moves
    by two, which is also what the arm itself would do.  The if-chain,
    the loop body, the loop and the parser are therefore the same with
    the arm deleted. *)
Theorem separate_arm_unreachable `{RT : Runtime} (tokens : list string) :
  (∀ t nt v, t ∈ separate_tokens →
     ∃ s m, classify t = Some (s, m, "") ∧
       dispatch true t nt v = Ok (set_info s (nt, m) v, true, 1) ∧
       separate_arm t nt v = set_info s (nt, m) v) ∧
  (∀ t nt v, dispatch false t nt v = dispatch true t nt v) ∧
  (∀ v, i v < length tokens →
     loop_body_gen false tokens v = loop_body tokens v) ∧
  (∀ v, while_loop false tokens v = while_loop true tokens v) ∧
  (∀ st : shell,
     parse_redirections_without_separate tokens st =
     parse_redirections tokens st).
Proof.
  split; [|split; [|split; [|split]]].
  - intros t nt v Hin.
    destruct (separate_token_bare t Hin) as (s & m & Hc & Harm).
    exists s, m. split; [exact Hc|]. split; [|apply Harm].
    rewrite dispatch_classify, Hc. reflexivity.
  - intros t nt v. rewrite !dispatch_classify. reflexivity.
  - intros v Hlt.
    destruct (lookup_lt_is_Some_2 tokens (i v) Hlt) as [t Ht].
    unfold loop_body. rewrite !(loop_body_classify _ _ _ _ Ht). reflexivity.
  - apply while_loop_without_separate.
  - intros st.
    unfold parse_redirections_without_separate, parse_redirections.
    rewrite !parse_redirections_spec. reflexivity.
Qed.

(** C7 as stated does not hold for every token list: here two operators
    target stdout and the last of them is [>b], yet the parser returns no
    spec for stdout, because the operator [2>] at the end has no filename
    and the validation then drops all three specs. *)
Lemma last_wins_counterexample :
  operators_for Stdout [">a"; ">b"; "2>"]
    = [(Stdout, (Some "a", ModeW)); (Stdout, (Some "b", ModeW))] ∧
  last_for Stdout (operators [">a"; ">b"; "2>"]) = Some (Some "b", ModeW) ∧
  parse_redirections [">a"; ">b"; "2>"] Toy.start
    = (Ok ([], None, None, None),
       print "Error: no filename provided for stderr redirection" Toy.start) ∧
  stream_spec Stdout ([], None, None, None)
    ≠ last_for Stdout (operators [">a"; ">b"; "2>"]).
Proof.
  split; [reflexivity|]. split; [reflexivity|]. split; [reflexivity|].
  discriminate.
Qed.

Lemma last_for_is_Some s tokens :
  1 ≤ length (operators_for s tokens) →
  is_Some (last_for s (operators tokens)).
Proof.
  unfold operators_for, last_for. intros Hlen.
  apply last_is_Some. intros Hnil. apply fmap_nil_inv in Hnil.
  rewrite Hnil in Hlen. simpl in Hlen. lia.
Qed.

(** C7, amended: when two or more operators target the stream [s], and
    the last operator of every stream has a filename, the parser's spec
    for [s] is the [(filename, mode)] of the last operator that targets
    [s], and nothing is printed.  When the last operator of some stream
    has no filename, the three specs are absent and the diagnostic for
    the first such stream is printed. *)
Theorem last_operator_wins `{RT : Runtime} (tokens : list string)
    (st : shell) (s : std_stream) :
  2 ≤ length (operators_for s tokens) →
  ∃ r st', parse_redirections tokens st = (Ok r, st') ∧
    match first_missing tokens with
    | None =>
        st' = st ∧ is_Some (stream_spec s r) ∧
        stream_spec s r = last_for s (operators tokens)
    | Some name =>
        st' = print ("Error: no filename provided for " ++ name
                     ++ " redirection") st ∧
        ∀ s', stream_spec s' r = None
    end.
Proof.
  intros Hlen. unfold parse_redirections. rewrite parse_redirections_spec.
  simpl. destruct (first_missing tokens) as [name|].
  - eexists _, _. split; [reflexivity|]. split; [reflexivity|].
    intros []; reflexivity.
  - eexists _, _. split; [reflexivity|]. split; [reflexivity|].
    assert (stream_spec s
              (arguments tokens, last_for Stdout (operators tokens),
               last_for Stderr (operators tokens),
               last_for Stdin (operators tokens))
            = last_for s (operators tokens)) as -> by (destruct s; reflexivity).
    split; [|reflexivity]. apply last_for_is_Some. lia.
Qed.

Lemma last_operator_wins_witness :
  2 ≤ length (operators_for Stdout [">a"; "x"; ">>"; "b"; "2>e"]) ∧
  ∃ r st',
    parse_redirections [">a"; "x"; ">>"; "b"; "2>e"] Toy.start = (Ok r, st') ∧
    st' = Toy.start ∧ stream_spec Stdout r = Some (Some "b", ModeA).
Proof.
  split; [vm_compute; lia|].
  destruct (last_operator_wins [">a"; "x"; ">>"; "b"; "2>e"] Toy.start Stdout)
    as (r & st' & Hparse & Hst & _ & Hspec); [vm_compute; lia|].
  exists r, st'. split; [exact Hparse|]. split; [exact Hst|exact Hspec].
Defined.

(** ** The executable resolver *)

Section Resolver.
Context `{RT : Runtime}.

Lemma debug_exec_cache msg (st : shell) :
  exec_cache (debug msg st) = exec_cache st.
Proof. unfold debug. destruct (DEBUG st); reflexivity. Qed.

Lemma is_executable_file_exec_cache p (st : shell) :
  exec_cache (is_executable_file p st).2 = exec_cache st.
Proof.
  unfold is_executable_file, os_path_exists, os_access_x, os_path_isfile.
  destruct (path_exists (os st) p); [|reflexivity]. simpl.
  destruct (access_x (os st) p); reflexivity.
Qed.

(** The probes of a test are put on top of the trace, the test for
    existence first. *)
Lemma is_executable_file_trace p (st : shell) :
  ∃ evs, trace (is_executable_file p st).2
         = (evs ++ EvProbe ProbeExists p :: trace st)%list.
Proof.
  unfold is_executable_file, os_path_exists, os_access_x, os_path_isfile.
  destruct (path_exists (os st) p); [|exists []; reflexivity]. simpl.
  destruct (access_x (os st) p).
  - exists [EvProbe ProbeIsFile p; EvProbe ProbeAccessX p]. reflexivity.
  - exists [EvProbe ProbeAccessX p]. reflexivity.
Qed.

Lemma search_path_dirs_found name dirs (st st1 : shell) candidate :
  search_path_dirs name dirs st = (Some candidate, st1) →
  exec_cache st1 !! name = Some (Some candidate).
Proof.
  revert st. induction dirs as [|d dirs IH]; intros st; simpl; [discriminate|].
  destruct (truthy d); simpl; [|apply IH].
  destruct (is_executable_file (path_join d name) st) as [found st'].
  destruct found; [|apply IH].
  intros [= <- <-]. simpl. apply lookup_insert_eq.
Qed.

(** A name that is in the cache is answered from the cache, and the
    state, its trace included, stays as it is. *)
Lemma find_executable_in_path_hit name (st : shell) cached :
  exec_cache st !! name = Some cached →
  find_executable_in_path name st = (cached, st).
Proof. intros H. unfold find_executable_in_path. rewrite H. reflexivity. Qed.

(** Where the claim of C3 holds: a name that resolved to a path, a name
    that is not an absolute path, and a name that was in the cache before
    are answered from the cache the second time. *)
Lemma find_executable_in_path_again name (st st1 : shell) r :
  find_executable_in_path name st = (r, st1) →
  is_Some r ∨ isabs name = false ∨ is_Some (exec_cache st !! name) →
  find_executable_in_path name st1 = (r, st1).
Proof.
  intros Hfirst Hcase. apply find_executable_in_path_hit.
  unfold find_executable_in_path in Hfirst.
  destruct (exec_cache st !! name) as [cached|] eqn:Hc.
  { injection Hfirst as <- <-. exact Hc. }
  destruct (isabs name) eqn:Habs.
  - pose proof (is_executable_file_exec_cache name st) as Hcache.
    destruct (is_executable_file name st) as [found st'].
    destruct found; injection Hfirst as <- <-.
    + simpl. apply lookup_insert_eq.
    + destruct Hcase as [[? [=]]|[[=]|[? [=]]]].
  - destruct (search_path_dirs name (get_path_dirs st) st) as [[c|] st'] eqn:Hs;
      injection Hfirst as <- <-.
    + exact (search_path_dirs_found _ _ _ _ _ Hs).
    + simpl. apply lookup_insert_eq.
Qed.

End Resolver.

(** C3, at the input where the code departs from it: an absolute path
    that fails the test for an executable file is answered with
    not-found and is not put into the cache, so the second call with the
    same name runs the test again and probes the file system. *)
Theorem absolute_miss_not_cached `{RT : Runtime} (name : string)
    (st : shell) :
  exec_cache st !! name = None →
  isabs name = true →
  (is_executable_file name st).1 = false →
  ∃ st1 st2 evs,
    find_executable_in_path name st = (None, st1) ∧
    exec_cache st1 !! name = None ∧
    find_executable_in_path name st1 = (None, st2) ∧
    trace st2 = (evs ++ EvProbe ProbeExists name :: trace st1)%list.
Proof.
  intros Hc Habs Hfail.
  assert (∀ st' : shell,
            exec_cache st' !! name = None →
            (is_executable_file name st').1 = false →
            find_executable_in_path name st'
              = (None, (is_executable_file name st').2)) as Hmiss.
  { intros st' Hc' Hfail'. unfold find_executable_in_path.
    rewrite Hc', Habs.
    destruct (is_executable_file name st') as [found st'']. simpl in *.
    rewrite Hfail'. reflexivity. }
  assert ((is_executable_file name (is_executable_file name st).2).1 = false)
    as Hfail2.
  { revert Hfail.
    unfold is_executable_file, os_path_exists, os_access_x, os_path_isfile.
    destruct (path_exists (os st) name) eqn:He; simpl; rewrite ?He; simpl;
      [|reflexivity].
    destruct (access_x (os st) name) eqn:Hx; simpl; rewrite ?He; simpl;
      rewrite ?Hx; simpl; auto. }
  pose proof (is_executable_file_exec_cache name st) as Hcache.
  destruct (is_executable_file_trace name (is_executable_file name st).2)
    as [evs Hevs].
  exists (is_executable_file name st).2,
         (is_executable_file name (is_executable_file name st).2).2, evs.
  split; [apply Hmiss; assumption|].
  split; [congruence|].
  split; [apply Hmiss; [congruence|assumption]|exact Hevs].
Qed.

Lemma absolute_miss_not_cached_witness :
  exec_cache Toy.start !! "/nope" = None ∧
  isabs "/nope" = true ∧
  ∃ st1 st2 evs,
    find_executable_in_path "/nope" Toy.start = (None, st1) ∧
    exec_cache st1 !! "/nope" = None ∧
    find_executable_in_path "/nope" st1 = (None, st2) ∧
    trace st2 = (evs ++ EvProbe ProbeExists "/nope" :: trace st1)%list.
Proof.
  split; [reflexivity|]. split; [reflexivity|].
  apply (absolute_miss_not_cached "/nope" Toy.start); reflexivity.
Defined.

(** ** Builtins *)

Lemma isabs_append a b : isabs a = true → isabs (a ++ b) = true.
Proof.
  intros [r ->]%prefix_split. unfold isabs, startswith.
  change (("/" ++ r) ++ b) with (String "/" (r ++ b)). simpl.
  destruct (r ++ b); reflexivity.
Qed.

(** The target that [builtin_cd] works with is an absolute path, when
    the working directory is reported as one. *)
Lemma cd_resolve_absolute `{RT : Runtime} arg target (st : shell) :
  cd_resolve arg st = Ok target →
  (∀ cwd, getcwd (os st) = Success cwd → isabs cwd = true) →
  isabs target = true.
Proof.
  unfold cd_resolve, os_getcwd. intros Hres Hcwd.
  destruct (isabs (if startswith "~" arg then _ else arg)) eqn:Habs;
    simpl in Hres.
  { injection Hres as <-. exact Habs. }
  destruct (getcwd (os st)) as [cwd|] eqn:Hg; simpl in Hres; [|discriminate].
  injection Hres as <-. specialize (Hcwd cwd eq_refl).
  unfold path_join. unfold isabs in Habs. rewrite Habs.
  destruct (negb (truthy cwd) || endswith_slash cwd); apply isabs_append, Hcwd.
Qed.

(** C5: [cd] with one argument, whose target resolves to [target]
    (tilde expansion, then made absolute against the working directory,
    which makes it an absolute path).  When [target] does not exist, the
    message "No such file or directory" is printed and neither the
    operating-system state, which holds the working directory, nor the
    environment changes.  When it exists and is not a directory, the
    message "Cannot cd into a file" is printed and nothing changes.
    Otherwise [os.chdir(target)] is called; when it succeeds the
    operating-system state is the one after that call and [PWD] is set to
    [target], and nothing is printed. *)
Theorem builtin_cd_one_argument `{RT : Runtime} (arg target : string)
    (st : shell) :
  cd_resolve arg st = Ok target →
  ((∀ cwd, getcwd (os st) = Success cwd → isabs cwd = true) →
   isabs target = true) ∧
  ∃ st', builtin_cd [arg] st = (Ok tt, st') ∧
    if negb (path_exists (os st) target) then
      os st' = os st ∧ environ st' = environ st ∧
      trace st' =
        EvWrite (sys_stdout st)
          (("cd: " ++ target ++ ": No such file or directory") ++ nl)
        :: EvProbe ProbeExists target :: trace st
    else if negb (path_isdir (os st) target) then
      os st' = os st ∧ environ st' = environ st ∧
      trace st' =
        EvWrite (sys_stdout st)
          (("cd: " ++ target ++ ": Cannot cd into a file") ++ nl)
        :: EvProbe ProbeIsDir target :: EvProbe ProbeExists target :: trace st
    else
      match chdir (os st) target with
      | Success o' =>
          os st' = o' ∧ environ st' = <["PWD" := target]> (environ st) ∧
          trace st' =
            EvProbe ProbeIsDir target :: EvProbe ProbeExists target :: trace st
      | Failure msg =>
          os st' = os st ∧ environ st' = environ st ∧
          trace st' =
            EvWrite (sys_stdout st) (("cd: " ++ target ++ ": " ++ msg) ++ nl)
            :: EvProbe ProbeIsDir target :: EvProbe ProbeExists target
            :: trace st
      end.
Proof.
  intros Hres. split; [apply (cd_resolve_absolute _ _ _ Hres)|].
  unfold builtin_cd, cd_to. simpl. rewrite Hres.
  unfold os_path_exists, os_path_isdir. simpl.
  destruct (path_exists (os st) target); simpl.
  - destruct (path_isdir (os st) target); simpl.
    + destruct (chdir (os st) target) as [o'|msg]; eexists; split;
        try reflexivity; simpl; repeat split.
    + eexists. split; [reflexivity|]. repeat split.
  - eexists. split; [reflexivity|]. repeat split.
Qed.

Lemma builtin_cd_one_argument_witness :
  cd_resolve "/nonexistent_dir_xyz" Toy.start = Ok "/nonexistent_dir_xyz" ∧
  ∃ st', builtin_cd ["/nonexistent_dir_xyz"] Toy.start = (Ok tt, st') ∧
    os st' = os Toy.start ∧ environ st' = environ Toy.start.
Proof.
  split; [reflexivity|].
  destruct (builtin_cd_one_argument "/nonexistent_dir_xyz"
              "/nonexistent_dir_xyz" Toy.start eq_refl)
    as (_ & st' & Hcd & H).
  exists st'. split; [exact Hcd|].
  change (negb (path_exists (os Toy.start) "/nonexistent_dir_xyz"))
    with true in H.
  destruct H as (Hos & Henv & _). split; assumption.
Defined.

(** ** The standard streams and the file objects *)

Section Frame.
Context `{RT : Runtime}.
Implicit Types st : shell.

Lemma io_log e st : io (log e st) = io st.
Proof. reflexivity. Qed.

Lemma io_print msg st : io (print msg st) = io st.
Proof. reflexivity. Qed.

Lemma io_print_err msg st : io (print_err msg st) = io st.
Proof. reflexivity. Qed.

Lemma io_debug msg st : io (debug msg st) = io st.
Proof. unfold debug. destruct (DEBUG st); reflexivity. Qed.

Lemma io_set_os o st : io (set_os o st) = io st.
Proof. reflexivity. Qed.

Lemma io_set_environ e st : io (set_environ e st) = io st.
Proof. reflexivity. Qed.

Lemma io_set_exec_cache c st : io (set_exec_cache c st) = io st.
Proof. reflexivity. Qed.

Create Rewrite HintDb io.
Hint Rewrite io_log io_print io_print_err io_debug io_set_os io_set_environ
  io_set_exec_cache : io.

Lemma io_is_executable_file p st : io (is_executable_file p st).2 = io st.
Proof.
  unfold is_executable_file, os_path_exists, os_access_x, os_path_isfile.
  destruct (path_exists (os st) p); [|reflexivity]. simpl.
  destruct (access_x (os st) p); reflexivity.
Qed.

Lemma io_search_path_dirs name dirs st :
  io (search_path_dirs name dirs st).2 = io st.
Proof.
  revert st. induction dirs as [|d dirs IH]; intros st; simpl; [reflexivity|].
  destruct (truthy d); simpl; [|apply IH].
  pose proof (io_is_executable_file (path_join d name) st) as Hx.
  destruct (is_executable_file (path_join d name) st) as [found st1].
  destruct found; simpl in *.
  - autorewrite with io. exact Hx.
  - rewrite IH. exact Hx.
Qed.

Lemma io_find_executable_in_path name st :
  io (find_executable_in_path name st).2 = io st.
Proof.
  unfold find_executable_in_path.
  destruct (exec_cache st !! name); [reflexivity|].
  destruct (isabs name).
  - pose proof (io_is_executable_file name st) as Hx.
    destruct (is_executable_file name st) as [found st1].
    destruct found; simpl in *; autorewrite with io; exact Hx.
  - pose proof (io_search_path_dirs name (get_path_dirs st) st) as Hs.
    destruct (search_path_dirs name (get_path_dirs st) st) as [[c|] st1];
      simpl in *; autorewrite with io; exact Hs.
Qed.

Lemma io_builtin_echo args st : io (builtin_echo args st).2 = io st.
Proof. reflexivity. Qed.

Lemma io_builtin_exit args st : io (builtin_exit args st).2 = io st.
Proof.
  unfold builtin_exit.
  destruct (length args =? 0); [reflexivity|].
  destruct (1 <? length args); [reflexivity|].
  destruct (getitem args 0) as [a|]; [|reflexivity].
  destruct (py_int a) as [|[]]; reflexivity.
Qed.

Lemma io_builtin_type args st : io (builtin_type args st).2 = io st.
Proof.
  unfold builtin_type.
  destruct (negb (length args =? 1)); [reflexivity|].
  destruct (getitem args 0) as [target|]; [|reflexivity].
  destruct (assoc target shell_builtins); [reflexivity|].
  pose proof (io_find_executable_in_path target st) as Hf.
  destruct (find_executable_in_path target st) as [[p|] st1]; simpl in *.
  - destruct (truthy p); simpl; autorewrite with io; exact Hf.
  - autorewrite with io. exact Hf.
Qed.

Lemma io_builtin_pwd args st : io (builtin_pwd args st).2 = io st.
Proof. unfold builtin_pwd. destruct (os_getcwd st); reflexivity. Qed.

Lemma io_cd_to target st : io (cd_to target st).2 = io st.
Proof.
  unfold cd_to, os_path_exists, os_path_isdir.
  destruct (cd_resolve target st) as [t|]; [|reflexivity]. simpl.
  destruct (path_exists (os st) t); [|reflexivity]. simpl.
  destruct (path_isdir (os st) t); [|reflexivity]. simpl.
  destruct (chdir (os st) t); reflexivity.
Qed.

Lemma io_builtin_cd args st : io (builtin_cd args st).2 = io st.
Proof.
  unfold builtin_cd.
  destruct (length args =? 0); [apply io_cd_to|].
  destruct (length args =? 1); [|reflexivity].
  destruct (getitem args 0); [apply io_cd_to|reflexivity].
Qed.

Lemma io_call_builtin b args st : io (call_builtin b args st).2 = io st.
Proof.
  destruct b; simpl.
  - apply io_builtin_echo.
  - apply io_builtin_exit.
  - apply io_builtin_type.
  - apply io_builtin_pwd.
  - apply io_builtin_cd.
Qed.

(** Running a command changes neither what the standard streams refer to
    nor the file objects. *)
Lemma io_execute_command cmd_name args st :
  io (execute_command cmd_name args st).2 = io st.
Proof.
  unfold execute_command.
  destruct (assoc cmd_name shell_builtins) as [b|].
  - match goal with
    | |- context [call_builtin b args ?s] =>
        pose proof (io_call_builtin b args s) as Hb;
        destruct (call_builtin b args s) as [[|e] st2]
    end; simpl in *; autorewrite with io in Hb; [exact Hb|].
    destruct e; simpl; autorewrite with io; exact Hb.
  - match goal with
    | |- context [find_executable_in_path cmd_name ?s] =>
        pose proof (io_find_executable_in_path cmd_name s) as Hf;
        destruct (find_executable_in_path cmd_name s) as [[p|] st1]
    end; simpl in *; autorewrite with io in Hf.
    + destruct (truthy p); simpl; [|autorewrite with io; exact Hf].
      destruct (subprocess_run _ _ _) as [rc o'| |]; simpl;
        [destruct (negb (rc =? 0)%Z)|..]; simpl; autorewrite with io;
        exact Hf.
    + autorewrite with io. exact Hf.
Qed.

(** *** Entering and leaving the redirection contexts *)

Lemma streams_set_stream s h st :
  streams (set_stream s h st) = put s h (streams st).
Proof. destruct s; reflexivity. Qed.

Lemma files_set_stream s h st : files (set_stream s h st) = files st.
Proof. reflexivity. Qed.

Lemma put_back s h st : put s (get_stream s st) (put s h (streams st)) = streams st.
Proof. destruct s; reflexivity. Qed.

Lemma streams_exit_stack callbacks st :
  streams (exit_stack callbacks st) = unwind callbacks (streams st).
Proof.
  revert st. induction callbacks as [|[s orig] callbacks IH]; intros st; simpl.
  - reflexivity.
  - rewrite IH, streams_set_stream. reflexivity.
Qed.

Lemma files_exit_stack callbacks st : files (exit_stack callbacks st) = files st.
Proof.
  revert st. induction callbacks as [|[s orig] callbacks IH]; intros st; simpl.
  - reflexivity.
  - rewrite IH. reflexivity.
Qed.

Lemma files_enter_contexts contexts callbacks st :
  files (enter_contexts contexts callbacks st).2 = files st.
Proof.
  revert callbacks st.
  induction contexts as [|[s f] contexts IH]; intros callbacks st; simpl.
  - reflexivity.
  - rewrite IH. reflexivity.
Qed.

(** Leaving the contexts that were entered gives back the streams as
    they were before the first of them was entered. *)
Lemma unwind_enter_contexts contexts callbacks st :
  unwind (enter_contexts contexts callbacks st).1
         (streams (enter_contexts contexts callbacks st).2)
  = unwind callbacks (streams st).
Proof.
  revert callbacks st.
  induction contexts as [|[s f] contexts IH]; intros callbacks st; simpl.
  - reflexivity.
  - rewrite IH. cbn [unwind]. rewrite streams_set_stream, put_back.
    reflexivity.
Qed.

(** *** Closing *)

Lemma streams_close ff st : streams (close ff st) = streams st.
Proof. destruct ff; reflexivity. Qed.

Lemma streams_close_all ftc st : streams (close_all ftc st) = streams st.
Proof.
  revert st. induction ftc as [|ff ftc IH]; intros st; simpl; [reflexivity|].
  rewrite IH. apply streams_close.
Qed.

Lemma trace_close_all ftc st : trace (close_all ftc st) = trace st.
Proof.
  revert st. induction ftc as [|ff ftc IH]; intros st; simpl; [reflexivity|].
  rewrite IH. destruct ff; reflexivity.
Qed.

(** Closing the file objects numbered from [length old] on marks those
    and leaves the older ones as they are. *)
Lemma files_close_all old new st :
  files st = (old ++ new)%list →
  files (close_all (file_objects (length old) (length new)) st)
  = (old ++ (mark_closed <$> new))%list.
Proof.
  revert old st. induction new as [|x new IH]; intros old st Hfiles.
  - simpl. rewrite Hfiles. reflexivity.
  - unfold file_objects. cbn [length seq fmap list_fmap close_all].
    fold (file_objects (S (length old)) (length new)).
    specialize (IH (old ++ [mark_closed x])%list
                   (close (FileObj (length old)) st)).
    rewrite length_app in IH. cbn [length] in IH.
    rewrite Nat.add_1_r in IH.
    rewrite IH; [rewrite <- app_assoc; reflexivity|].
    cbn [close set_files files]. rewrite Hfiles.
    replace (length old) with (length old + 0) at 1 by lia.
    rewrite alter_app_r. rewrite <- app_assoc. reflexivity.
Qed.

(** *** One command line *)

Lemma opened_refl st : opened st st [].
Proof. exists []. rewrite app_nil_r. split; reflexivity. Qed.

Lemma opened_files st0 st st' ftc :
  opened st0 st ftc → files st' = files st → opened st0 st' ftc.
Proof. intros (new & Hf & Hftc) Heq. exists new. rewrite Heq. auto. Qed.

Lemma py_open_spec fname m st r st1 :
  py_open fname m st = (r, st1) →
  match r with
  | Ok f =>
      ∃ name, f = FileObj (length (files st)) ∧
        files st1 = (files st ++ [FileObject name m false])%list ∧
        streams st1 = streams st ∧ trace st1 = trace st ∧
        environ st1 = environ st ∧ exec_cache st1 = exec_cache st
  | Raise e => st1 = st ∧ is_Exception e = true
  end.
Proof.
  unfold py_open. destruct fname as [f|].
  - destruct (open_file (os st) f m); intros [= <- <-]; simpl; eauto 10.
  - intros [= <- <-]. simpl. auto.
Qed.

Lemma open_redirection_spec s x contexts ftc st0 st c contexts' ftc' st' :
  opened st0 st ftc →
  open_redirection s x contexts ftc st = (c, contexts', ftc', st') →
  opened st0 st' ftc' ∧ streams st' = streams st ∧
  ((c = Normal ∧ trace st' = trace st) ∨
   (c = ContinueStmt ∧ ∃ msg, trace st' = EvWrite (sys_stderr st) msg :: trace st)).
Proof.
  intros Hop. unfold open_redirection. destruct x as [[fname m]|].
  - destruct (py_open fname m st) as [[f|e] st1] eqn:Hopen;
      apply py_open_spec in Hopen.
    + destruct Hopen as (name & -> & Hfiles & Hstreams & Htrace & _).
      intros [= <- <- <- <-]. split; [|auto].
      destruct Hop as (new & Hf & ->).
      exists (new ++ [FileObject name m false])%list.
      rewrite Hfiles, Hf, <- app_assoc. split; [reflexivity|].
      unfold file_objects.
      rewrite !length_app. simpl. rewrite Nat.add_1_r, seq_S, fmap_app.
      reflexivity.
    + destruct Hopen as [-> Hexc]. rewrite Hexc.
      intros [= <- <- <- <-]. split; [|split; [reflexivity|]].
      * eapply opened_files; [exact Hop|reflexivity].
      * right. split; [reflexivity|]. eexists. reflexivity.
  - intros [= <- <- <- <-]. auto.
Qed.

Lemma with_block_spec cmd_name args contexts ftc st0 st c st' :
  opened st0 st ftc →
  with_block cmd_name args contexts ftc st = (c, st') →
  opened st0 st' ftc ∧ streams st' = streams st ∧
  (c = Normal ∨ ∃ code, c = Raised (SystemExit code)).
Proof.
  intros Hop. unfold with_block.
  pose proof (unwind_enter_contexts contexts [] st) as Hunwind.
  pose proof (files_enter_contexts contexts [] st) as Hfiles.
  destruct (enter_contexts contexts [] st) as [callbacks st1].
  simpl in Hunwind, Hfiles.
  pose proof (io_execute_command cmd_name args st1) as Hio.
  destruct (execute_command cmd_name args st1) as [r st2] eqn:Hexec.
  simpl in Hio. injection Hio as Hin Hout Herr Hf.
  assert (streams st2 = streams st1) as Hs by (unfold streams; congruence).
  assert (∃ code, r = Raise (SystemExit code) ∨ r = Ok tt) as [code Hr].
  { revert Hexec. unfold execute_command.
    destruct (assoc cmd_name shell_builtins).
    - destruct (call_builtin _ _ _) as [[[]|[]] ?]; intros [= <- <-];
        first [by exists 0%Z; right | by eexists; left].
    - destruct (find_executable_in_path _ _) as [[p|] ?];
        [destruct (truthy p); [destruct (subprocess_run _ _ _)|]|];
        intros [= <- <-]; exists 0%Z; right; reflexivity. }
  destruct Hr as [-> | ->]; intros [= <- <-].
  - split; [|split; [|right; eauto]].
    + destruct Hop as (new & Hnew & ->).
      exists (mark_closed <$> new). rewrite files_exit_stack.
      rewrite (files_close_all (files st0) new) by congruence.
      rewrite length_fmap. auto.
    + rewrite streams_exit_stack, streams_close_all, Hs. exact Hunwind.
  - split; [|split; [|left; reflexivity]].
    + eapply opened_files; [exact Hop|].
      rewrite files_exit_stack. congruence.
    + rewrite streams_exit_stack, Hs. exact Hunwind.
Qed.

Lemma streams_stderr st st' : streams st' = streams st → sys_stderr st' = sys_stderr st.
Proof. unfold streams. congruence. Qed.

Lemma try_body_spec cmd_name args so se si st c ftc st' :
  try_body cmd_name args so se si st = (c, ftc, st') →
  opened st st' ftc ∧ streams st' = streams st ∧
  (c = Normal ∨ (∃ code, c = Raised (SystemExit code)) ∨
   (c = ContinueStmt ∧
    ∃ msg, trace st' = EvWrite (sys_stderr st) msg :: trace st)).
Proof.
  unfold try_body.
  destruct (open_redirection Stdout so [] [] st)
    as [[[c1 ctx1] ftc1] st1] eqn:H1.
  apply (open_redirection_spec _ _ _ _ st) in H1; [|apply opened_refl].
  destruct H1 as (Hop1 & Hs1 & [[-> Ht1]|[-> [msg Ht1]]]);
    [|intros [= <- <- <-]; eauto 10].
  destruct (open_redirection Stderr se ctx1 ftc1 st1)
    as [[[c2 ctx2] ftc2] st2] eqn:H2.
  apply (open_redirection_spec _ _ _ _ st) in H2; [|exact Hop1].
  destruct H2 as (Hop2 & Hs2 & [[-> Ht2]|[-> [msg Ht2]]]).
  2: { intros [= <- <- <-]. split; [exact Hop2|].
       split; [congruence|]. right. right. split; [reflexivity|].
       exists msg. rewrite Ht2, (streams_stderr _ _ Hs1). congruence. }
  destruct (open_redirection Stdin si ctx2 ftc2 st2)
    as [[[c3 ctx3] ftc3] st3] eqn:H3.
  apply (open_redirection_spec _ _ _ _ st) in H3; [|exact Hop2].
  destruct H3 as (Hop3 & Hs3 & [[-> Ht3]|[-> [msg Ht3]]]).
  2: { intros [= <- <- <-]. split; [exact Hop3|].
       split; [congruence|]. right. right. split; [reflexivity|].
       exists msg. rewrite Ht3, (streams_stderr st1 st2) by congruence.
       rewrite (streams_stderr _ _ Hs1). congruence. }
  destruct (with_block cmd_name args ctx3 ftc3 st3) as [c4 st4] eqn:H4.
  apply (with_block_spec _ _ _ _ st) in H4; [|exact Hop3].
  destruct H4 as (Hop4 & Hs4 & Hc4).
  intros [= <- <- <-]. split; [exact Hop4|]. split; [congruence|].
  destruct Hc4 as [->|[code ->]]; eauto.
Qed.

Lemma forallb_mark_closed new : forallb fo_closed (mark_closed <$> new) = true.
Proof. induction new; simpl; auto. Qed.

Lemma io_parse_redirections args st :
  ∃ r, (parse_redirections args st).1 = Ok r ∧
       io (parse_redirections args st).2 = io st.
Proof.
  unfold parse_redirections. rewrite parse_redirections_spec. simpl.
  destruct (first_missing args); eauto.
Qed.

(** After a command line the standard streams are the ones from before
    it, the older file objects are as they were, and every file object
    made for the command line is closed.  The loop goes on or is left by
    [break]; no exception leaves it. *)
Lemma command_line_spec cmd_name args st :
  streams (command_line cmd_name args st).2 = streams st ∧
  take (length (files st)) (files (command_line cmd_name args st).2)
    = files st ∧
  forallb fo_closed (opened_since st (command_line cmd_name args st).2)
    = true ∧
  (command_line cmd_name args st).1 ∈ [Normal; ContinueStmt; BreakStmt].
Proof.
  unfold command_line, opened_since.
  destruct (io_parse_redirections args st) as (r & Hr & Hio).
  destruct (parse_redirections args st) as [r' st1]. simpl in Hr, Hio.
  subst r'. destruct r as [[[args_clean so] se] si].
  injection Hio as Hin Hout Herr Hfiles.
  destruct (try_body cmd_name args_clean so se si st1)
    as [[c ftc] st2] eqn:Htry.
  apply try_body_spec in Htry. destruct Htry as (Hop & Hs & Hc).
  destruct Hop as (new & Hnew & ->). simpl.
  rewrite streams_close_all.
  rewrite (files_close_all (files st1) new) by exact Hnew.
  rewrite <- Hfiles, take_app_length, drop_app_length.
  split; [unfold streams in *; congruence|]. split; [reflexivity|].
  split; [apply forallb_mark_closed|].
  destruct Hc as [->|[[code ->]|[-> _]]]; set_solver.
Qed.

(** *** The whole loop *)

Lemma settled_io st st' : io st' = io st → settled st st'.
Proof.
  intros [= Hin Hout Herr Hfiles]. unfold settled, streams, opened_since.
  rewrite Hin, Hout, Herr, Hfiles, take_ge, drop_ge by lia. auto.
Qed.

Lemma settled_trans st1 st2 st3 :
  settled st1 st2 → settled st2 st3 → settled st1 st3.
Proof.
  unfold settled, opened_since. intros (Hs1 & Ht1 & Hc1) (Hs2 & Ht2 & Hc2).
  split; [congruence|].
  pose proof (take_drop (length (files st1)) (files st2)) as H12.
  pose proof (take_drop (length (files st2)) (files st3)) as H23.
  rewrite Ht1 in H12. rewrite Ht2 in H23.
  generalize dependent (drop (length (files st1)) (files st2)).
  generalize dependent (drop (length (files st2)) (files st3)).
  intros new3 Hc3 H23 new2 Hc2 H12.
  rewrite <- H23, <- H12, <- app_assoc.
  rewrite take_app_length, drop_app_length, forallb_app, Hc2, Hc3. auto.
Qed.

Lemma settled_command_line cmd_name args st :
  settled st (command_line cmd_name args st).2.
Proof.
  destruct (command_line_spec cmd_name args st) as (? & ? & ? & _).
  split; auto.
Qed.

(** The loop ends without an exception, whatever is typed, and leaves
    the streams and the file objects settled. *)
Lemma main_loop_spec inp st :
  (main_loop inp st).1 = Ok tt ∧ settled st (main_loop inp st).2.
Proof.
  revert st. induction inp as [|ev inp IH]; intros st.
  - split; [reflexivity|]. apply settled_io. reflexivity.
  - assert (∀ st1, io st1 = io st →
              (main_loop inp st1).1 = Ok tt ∧ settled st (main_loop inp st1).2)
      as Hnext.
    { intros st1 Hio. destruct (IH st1) as [Hr Hs]. split; [exact Hr|].
      eapply settled_trans; [apply settled_io, Hio|exact Hs]. }
    destruct ev as [line|]; cbn [main_loop]; [|apply Hnext; reflexivity].
    destruct (is_blank line); [apply Hnext; reflexivity|].
    destruct (shlex_split line) as [[|cmd_name args]|msg];
      [apply Hnext; reflexivity| |apply Hnext; reflexivity].
    match goal with
    | |- context [command_line cmd_name args ?s] =>
        pose proof (command_line_spec cmd_name args s) as (Hs & Ht & Hc & Hin);
        pose proof (settled_io st s eq_refl) as Hprompt;
        pose proof (conj Hs (conj Ht Hc) : settled s _) as Hline;
        destruct (command_line cmd_name args s) as [c st']
    end.
    simpl in Hin, Hline.
    assert (settled st st') as Hst.
    { eapply settled_trans; [exact Hprompt|exact Hline]. }
    assert ((main_loop inp st').1 = Ok tt ∧ settled st (main_loop inp st').2)
      as Hgo.
    { destruct (IH st') as [Hr Hs']. split; [exact Hr|].
      eapply settled_trans; eassumption. }
    destruct c; try exact Hgo; [split; [reflexivity|exact Hst]|].
    rewrite !elem_of_cons, elem_of_nil in Hin.
    destruct Hin as [|[|[|[]]]]; discriminate.
Qed.

Lemma main_spec inp st :
  (main inp st).1 = Ok tt ∧ settled st (main inp st).2.
Proof.
  unfold main. destruct (main_loop_spec inp st) as [Hr Hs].
  destruct (main_loop inp st) as [r st']. simpl in *. subst r.
  split; [reflexivity|]. simpl.
  eapply settled_trans; [exact Hs|]. apply settled_io, io_debug.
Qed.

(** *** A redirection target that cannot be opened *)

(** One of the three blocks, when some open of this block or of a later
    one raises: either it is this one, and the block ends by [continue]
    after the message, or this one goes through and leaves everything
    but the operating system and the file objects as it was. *)
Lemma open_stage s0 x requests contexts ftc st s fname e :
  first_open_failure ((s0, x) :: requests) st = Some (s, fname, e) →
  open_redirection s0 x contexts ftc st
    = (ContinueStmt, contexts, ftc,
       print_err ("Error opening " ++ fname_text fname ++ " for "
                  ++ stream_name s ++ " redirection: " ++ exn_text e) st) ∨
  ∃ contexts' ftc' st',
    open_redirection s0 x contexts ftc st = (Normal, contexts', ftc', st') ∧
    first_open_failure requests st' = Some (s, fname, e) ∧
    sys_stderr st' = sys_stderr st ∧ trace st' = trace st ∧
    environ st' = environ st ∧ exec_cache st' = exec_cache st.
Proof.
  unfold open_redirection. cbn [first_open_failure].
  destruct x as [[f m]|]; [|intros H; right; eauto 10].
  destruct (py_open f m st) as [[h|e'] st1] eqn:Hopen;
    apply py_open_spec in Hopen.
  - destruct Hopen as (name & -> & _ & Hs & Ht & Hv & Hc).
    intros H. right. eexists _, _, _. split; [reflexivity|].
    split; [exact H|]. split; [exact (streams_stderr _ _ Hs)|]. auto.
  - destruct Hopen as [-> Hexc]. rewrite Hexc.
    intros [= <- <- <-]. left. reflexivity.
Qed.

Lemma try_body_open_failure cmd_name args_clean so se si st s fname e :
  first_open_failure [(Stdout, so); (Stderr, se); (Stdin, si)] st
    = Some (s, fname, e) →
  ∃ ftc st2,
    try_body cmd_name args_clean so se si st = (ContinueStmt, ftc, st2) ∧
    trace st2 =
      EvWrite (sys_stderr st)
        (("Error opening " ++ fname_text fname ++ " for " ++ stream_name s
          ++ " redirection: " ++ exn_text e) ++ nl) :: trace st ∧
    environ st2 = environ st ∧ exec_cache st2 = exec_cache st.
Proof.
  intros H. unfold try_body.
  destruct (open_stage _ _ _ [] [] _ _ _ _ H)
    as [-> | (ctx1 & ftc1 & st1 & -> & H1 & He1 & Ht1 & Hv1 & Hc1)].
  { eexists _, _. split; [reflexivity|]. auto. }
  destruct (open_stage _ _ _ ctx1 ftc1 _ _ _ _ H1)
    as [-> | (ctx2 & ftc2 & st2 & -> & H2 & He2 & Ht2 & Hv2 & Hc2)].
  { eexists _, _. split; [reflexivity|]. unfold print_err. simpl.
    rewrite He1, Ht1. auto. }
  destruct (open_stage _ _ _ ctx2 ftc2 _ _ _ _ H2)
    as [-> | (ctx3 & ftc3 & st3 & -> & H3 & _)]; [|discriminate].
  eexists _, _. split; [reflexivity|]. unfold print_err. simpl.
  rewrite He2, He1, Ht2, Ht1. split; [reflexivity|]. split; congruence.
Qed.

End Frame.

(** ** The claims about the read-eval loop *)

(** C10: when the open of a redirection target raises (the first such
    open, in the order stdout, stderr, stdin, is the one for the stream
    [s] with the exception [e]), the command line ends by [continue]: the
    one event it adds to the trace is the error message on the standard
    error stream, so the command is not run and no standard stream is
    ever set; the environment and the cache are untouched; and every
    file object that was opened for the line before the failure is
    closed, the streams and the older file objects being as before. *)
Theorem open_failure_abandons_line `{RT : Runtime} (cmd_name : string)
    (args : list string) (st : shell) (s : std_stream)
    (fname : option string) (e : exn) :
  open_failure_of args st = Some (s, fname, e) →
  ∃ st',
    command_line cmd_name args st = (ContinueStmt, st') ∧
    trace st' =
      EvWrite (sys_stderr st)
        (("Error opening " ++ fname_text fname ++ " for " ++ stream_name s
          ++ " redirection: " ++ exn_text e) ++ nl) :: trace st ∧
    existsb is_execute (events_since st st') = false ∧
    existsb is_set_stream (events_since st st') = false ∧
    environ st' = environ st ∧ exec_cache st' = exec_cache st ∧
    streams st' = streams st ∧
    take (length (files st)) (files st') = files st ∧
    forallb fo_closed (opened_since st st') = true.
Proof.
  intros Hfail.
  pose proof (command_line_spec cmd_name args st) as (Hs & Ht & Hc & _).
  revert Hfail Hs Ht Hc. unfold open_failure_of, command_line, parse_redirections.
  rewrite parse_redirections_spec. simpl.
  destruct (first_missing args); [discriminate|].
  intros Hfail.
  destruct (try_body_open_failure cmd_name (arguments args) _ _ _ _ _ _ _ Hfail)
    as (ftc & st2 & -> & Htrace & Henv & Hcache).
  simpl. intros Hs Ht Hc. eexists. split; [reflexivity|].
  assert (trace (close_all ftc st2) = _ :: trace st) as Htr
    by (rewrite trace_close_all; exact Htrace).
  split; [exact Htr|].
  unfold events_since. rewrite Htr. simpl.
  replace (S (length (trace st)) - length (trace st)) with 1 by lia. simpl.
  repeat split; try assumption.
  - clear -Henv. induction ftc as [|[] ftc IH] in st2, Henv |- *; simpl; auto.
  - clear -Hcache. induction ftc as [|[] ftc IH] in st2, Hcache |- *; simpl; auto.
Qed.

Lemma open_failure_abandons_line_witness :
  open_failure_of ["hi"; ">"; "/tmp/o"; "2>"; "/tmp"] Toy.start
    = Some (Stderr, Some "/tmp", OSError "[Errno 21] Is a directory: /tmp") ∧
  ∃ st',
    command_line "echo" ["hi"; ">"; "/tmp/o"; "2>"; "/tmp"] Toy.start
      = (ContinueStmt, st') ∧
    files st' = [FileObject "/tmp/o" ModeW true] ∧
    streams st' = streams Toy.start ∧
    existsb is_execute (events_since Toy.start st') = false.
Proof.
  split; [reflexivity|].
  destruct (open_failure_abandons_line "echo"
              ["hi"; ">"; "/tmp/o"; "2>"; "/tmp"] Toy.start Stderr
              (Some "/tmp") (OSError "[Errno 21] Is a directory: /tmp")
              eq_refl)
    as (st' & Hline & _ & Hexec & _ & _ & _ & Hs & _ & _).
  exists st'. split; [exact Hline|]. split; [|split; assumption].
  vm_compute in Hline. injection Hline as <-. reflexivity.
Defined.

(** C4: after every command line, whatever way it takes, the three
    standard streams are the ones the shell had before the line, the file
    objects that existed before are as they were, and every file object
    opened for the redirections of the line is closed; this holds when the
    next line is about to be read or the loop has been left.  The same is
    true of a whole run of [main] on any input. *)
Theorem redirection_undone_on_every_path `{RT : Runtime} :
  (∀ cmd_name args (st : shell),
     let st' := (command_line cmd_name args st).2 in
     streams st' = streams st ∧
     take (length (files st)) (files st') = files st ∧
     forallb fo_closed (opened_since st st') = true) ∧
  (∀ inp (st : shell),
     let st' := (main inp st).2 in
     streams st' = streams st ∧
     take (length (files st)) (files st') = files st ∧
     forallb fo_closed (opened_since st st') = true).
Proof.
  split.
  - intros cmd_name args st. apply settled_command_line.
  - intros inp st. apply main_spec.
Qed.

(** The four ways of C4 on the small machine: a command that completes,
    a builtin that reports an error, a target that cannot be opened after
    another was opened, and a request to exit. *)
Example redirection_undone_examples :
  let after cmd_name args := (command_line cmd_name args Toy.start) in
  let summary (r : completion * shell) :=
    (r.1, streams r.2, fo_closed <$> files r.2) in
  let console := (Console Stdin, Console Stdout, Console Stderr) in
  summary (after "echo" ["hi"; ">"; "/tmp/o"; "2>>/tmp/e"])
    = (Normal, console, [true; true]) ∧
  summary (after "cd" ["/nope"; ">"; "/tmp/o"])
    = (Normal, console, [true]) ∧
  summary (after "echo" ["hi"; ">"; "/tmp/o"; "<"; "/tmp/missing"])
    = (ContinueStmt, console, [true]) ∧
  summary (after "exit" ["3"; ">"; "/tmp/o"; "2>"; "/tmp/e"])
    = (BreakStmt, console, [true; true]).
Proof. repeat split; vm_compute; reflexivity. Qed.

(** *** The builtin [exit] *)

(** A string that [int] accepts starts with no redirection operator. *)
Lemma py_int_plain_token a code : py_int a = Ok code → plain_token a = true.
Proof.
  intros Hint.
  assert (∀ p, p ∈ operator_prefixes → startswith p a = false) as Hno.
  { intros p Hp. destruct (startswith p a) eqn:Hpre; [|reflexivity].
    apply prefix_split in Hpre as [r ->]. exfalso. revert Hint.
    unfold operator_prefixes in Hp. rewrite !elem_of_cons, elem_of_nil in Hp.
    unfold py_int, strip.
    repeat destruct Hp as [->|Hp]; [..|destruct Hp];
      cbv beta iota delta [append]; cbn [lstrip is_space nat_of_ascii];
      simpl; destruct (rstrip r); simpl; discriminate. }
  unfold plain_token, operator_prefixes. simpl.
  rewrite !Hno; [reflexivity|..]; unfold operator_prefixes;
    rewrite !elem_of_cons; auto 10.
Qed.

Lemma builtin_exit_no_arguments `{RT : Runtime} (st : shell) :
  builtin_exit [] st = (Raise (SystemExit 0), st).
Proof. reflexivity. Qed.

Lemma builtin_exit_integer `{RT : Runtime} a code (st : shell) :
  py_int a = Ok code → builtin_exit [a] st = (Raise (SystemExit code), st).
Proof. intros H. unfold builtin_exit. simpl. rewrite H. reflexivity. Qed.

Lemma builtin_exit_not_integer `{RT : Runtime} a msg (st : shell) :
  py_int a = Raise (ValueError msg) →
  builtin_exit [a] st
    = (Ok tt, print ("exit: " ++ a ++ ": numeric argument required") st).
Proof. intros H. unfold builtin_exit. simpl. rewrite H. reflexivity. Qed.

Lemma builtin_exit_too_many `{RT : Runtime} a b args (st : shell) :
  builtin_exit (a :: b :: args) st
    = (Ok tt,
       print ("exit: Invalid number of arguments. Expected 1, given "
              ++ str_of_nat (S (S (length args)))) st).
Proof. reflexivity. Qed.

(** C1, at the input where the code departs from it: a line [exit n]
    with an integer [n].  The builtin raises [SystemExit(n)], the [with]
    block and the [try] statement of [main] let it through to
    [except SystemExit: break], the loop is left without reading the rest
    of the input, [main] returns, and the interpreter ends with status 0,
    not [n]. *)
Theorem exit_status_is_lost `{RT : Runtime} (line a : string) (code : Z)
    (inp : list input_event) (st : shell) :
  is_blank line = false →
  shlex_split line = Success ["exit"; a] →
  py_int a = Ok code →
  let st0 := log (EvWrite (sys_stdout st) "$ ") st in
  let st1 :=
    debug ("Executing builtin: exit " ++ repr_list [a])
      (log (EvExecute "exit" [a]) st0) in
  execute_command "exit" [a] st0 = (Raise (SystemExit code), st1) ∧
  command_line "exit" [a] st0 = (BreakStmt, st1) ∧
  main (Line line :: inp) st = (Ok tt, debug "Shell exiting." st1) ∧
  run_shell (Line line :: inp) st = (0%Z, debug "Shell exiting." st1).
Proof.
  intros Hblank Hsplit Hint st0 st1.
  assert (execute_command "exit" [a] st0 = (Raise (SystemExit code), st1))
    as Hexec.
  { unfold execute_command. simpl.
    rewrite (builtin_exit_integer a code) by exact Hint. reflexivity. }
  assert (command_line "exit" [a] st0 = (BreakStmt, st1)) as Hline.
  { unfold command_line, parse_redirections.
    rewrite parse_redirections_spec.
    assert (forallb plain_token [a] = true) as Hplain
      by (simpl; rewrite (py_int_plain_token _ _ Hint); reflexivity).
    unfold first_missing.
    destruct (plain_tokens_read [a] Hplain) as [-> ->]. simpl.
    unfold try_body, with_block. simpl. rewrite Hexec. reflexivity. }
  assert (main (Line line :: inp) st = (Ok tt, debug "Shell exiting." st1))
    as Hmain.
  { unfold main. cbn [main_loop]. rewrite Hblank, Hsplit.
    fold st0. rewrite Hline. reflexivity. }
  repeat split; try assumption.
  unfold run_shell. rewrite Hmain. reflexivity.
Qed.

Lemma exit_status_is_lost_witness :
  is_blank "exit 42" = false ∧
  shlex_split "exit 42" = Success ["exit"; "42"] ∧
  py_int "42" = Ok 42%Z ∧
  (builtin_exit ["42"] Toy.start).1 = Raise (SystemExit 42) ∧
  (run_shell [Line "exit 42"; Line "echo unreachable"] Toy.start).1 = 0%Z.
Proof.
  split; [reflexivity|]. split; [reflexivity|]. split; [reflexivity|].
  split; [reflexivity|].
  destruct (exit_status_is_lost "exit 42" "42" 42 [Line "echo unreachable"]
              Toy.start eq_refl eq_refl eq_refl) as (_ & _ & _ & ->).
  reflexivity.
Defined.

(** *** An operator without a filename *)

(** An operator without a filename can only be the last one. *)
Lemma operators_dangling_last tokens s m :
  (s, (None, m)) ∈ operators tokens →
  ∃ ops, operators tokens = (ops ++ [(s, (None, m))])%list.
Proof.
  remember (length tokens) as n eqn:Hn. revert tokens Hn.
  induction n as [n IH] using lt_wf_ind. intros [|t rest] Hn; simpl.
  { intros Hin. inversion Hin. }
  simpl in Hn.
  destruct (classify t) as [[[s' m'] att]|].
  - destruct (truthy att).
    + intros [[=]|Hin]%elem_of_cons.
      destruct (IH (length rest) ltac:(lia) rest eq_refl Hin) as [ops ->].
      exists ((s', (Some att, m')) :: ops). reflexivity.
    + destruct rest as [|fname rest'].
      * intros [[= -> ->]|Hin]%elem_of_cons; [|inversion Hin].
        exists []. reflexivity.
      * intros [[=]|Hin]%elem_of_cons. simpl in Hn.
        destruct (IH (length rest') ltac:(lia) rest' eq_refl Hin) as [ops ->].
        exists ((s', (Some fname, m')) :: ops). reflexivity.
  - intros Hin. exact (IH (length rest) ltac:(lia) rest eq_refl Hin).
Qed.

Lemma has_dangling_operator_missing tokens :
  has_dangling_operator tokens = true → ∃ name, first_missing tokens = Some name.
Proof.
  unfold has_dangling_operator. rewrite existsb_exists.
  intros ([s [fname m]] & Hin & Hnone). simpl in Hnone.
  destruct fname; [discriminate|].
  apply list_elem_of_In, operators_dangling_last in Hin as [ops Hops].
  assert (last_for s (operators tokens) = Some (None, m)) as Hlast.
  { unfold last_for. rewrite Hops, filter_app, fmap_app.
    rewrite filter_cons_True by reflexivity. simpl. apply last_snoc. }
  unfold first_missing. simpl.
  destruct s; rewrite ?Hlast; simpl;
    repeat match goal with
           | |- context [filename_missing ?x] => destruct (filename_missing x)
           end; eauto.
Qed.

(** C2, at the inputs where the code departs from it: when some operator
    has no filename, the parser prints the diagnostic and drops the three
    specs, as the claim says; but [main] takes what the parser returns as
    it would for a line without redirections, and runs the command with
    the remaining arguments. *)
Theorem missing_filename_still_runs `{RT : Runtime} (cmd_name : string)
    (args : list string) (st : shell) :
  has_dangling_operator args = true →
  ∃ name,
    let st1 :=
      print ("Error: no filename provided for " ++ name ++ " redirection") st in
    first_missing args = Some name ∧
    parse_redirections args st = (Ok (arguments args, None, None, None), st1) ∧
    command_line cmd_name args st =
      (match (execute_command cmd_name (arguments args) st1).1 with
       | Ok _ => Normal
       | Raise (SystemExit _) => BreakStmt
       | Raise e => Raised e
       end,
       (execute_command cmd_name (arguments args) st1).2).
Proof.
  intros [name Hname]%has_dangling_operator_missing. exists name.
  unfold command_line, parse_redirections.
  rewrite parse_redirections_spec, Hname. simpl.
  split; [reflexivity|]. split; [reflexivity|].
  unfold try_body, with_block. simpl.
  destruct (execute_command _ _ _) as [[|[]] st2]; reflexivity.
Qed.

Lemma missing_filename_still_runs_witness :
  has_dangling_operator ["hi"; ">"] = true ∧
  rev (trace (command_line "echo" ["hi"; ">"] Toy.start).2)
    = [EvWrite (Console Stdout)
         ("Error: no filename provided for stdout redirection" ++ nl);
       EvExecute "echo" ["hi"];
       EvWrite (Console Stdout) ("hi" ++ nl)].
Proof.
  split; [reflexivity|].
  destruct (missing_filename_still_runs "echo" ["hi"; ">"] Toy.start eq_refl)
    as (name & [= <-] & _ & ->).
  vm_compute. reflexivity.
Defined.

(** * Further properties of the code *)

(** ** The redirection parser *)

Lemma classify_None_plain t : classify t = None → plain_token t = true.
Proof.
  unfold classify, plain_token, operator_prefixes. simpl.
  destruct (startswith "1>>" t) eqn:H1gg; [discriminate|].
  destruct (startswith ">>" t) eqn:Hgg; [discriminate|].
  destruct (startswith "1>" t) eqn:H1g; [discriminate|].
  destruct (startswith ">" t) eqn:Hg; [discriminate|].
  destruct (startswith "2>>" t) eqn:H2gg; [discriminate|].
  destruct (startswith "2>" t) eqn:H2g; [discriminate|].
  destruct (startswith "<" t) eqn:Hlt; [discriminate|]. reflexivity.
Qed.

Lemma arguments_sublist tokens :
  arguments tokens `sublist_of` tokens ∧
  Forall (λ t, plain_token t = true) (arguments tokens).
Proof.
  remember (length tokens) as n eqn:Hn. revert tokens Hn.
  induction n as [n IH] using lt_wf_ind. intros [|t rest] Hn; simpl.
  { split; constructor. }
  simpl in Hn.
  destruct (IH (length rest) ltac:(lia) rest eq_refl) as [Hsub Hplain].
  destruct (classify t) as [[[s m] att]|] eqn:Hc.
  - destruct (truthy att); [split; [by apply sublist_cons|exact Hplain]|].
    destruct rest as [|fname rest'];
      [split; [apply sublist_nil_l|constructor]|]. simpl in Hn.
    destruct (IH (length rest') ltac:(lia) rest' eq_refl) as [Hsub' Hplain'].
    split; [by do 2 apply sublist_cons|exact Hplain'].
  - split; [by apply sublist_skip|].
    constructor; [exact (classify_None_plain _ Hc)|exact Hplain].
Qed.

(** X1: the clean argument list that the parser returns is a
    subsequence of the tokens it was given, in their order, and none of
    its members begins with a redirection operator. *)
Theorem cleaned_is_subsequence `{RT : Runtime} (tokens : list string)
    (st : shell) :
  ∃ r st', parse_redirections tokens st = (Ok r, st') ∧
    cleaned_of r `sublist_of` tokens ∧
    forallb plain_token (cleaned_of r) = true.
Proof.
  unfold parse_redirections. rewrite parse_redirections_spec. simpl.
  destruct (arguments_sublist tokens) as [Hsub Hplain].
  assert (forallb plain_token (arguments tokens) = true) as Hb
    by (apply forallb_forall; intros t Ht;
        exact (proj1 (Forall_forall _ _) Hplain t (proj2 (list_elem_of_In _ _) Ht))).
  destruct (first_missing tokens); eexists _, _; split; try reflexivity;
    split; assumption.
Qed.

Lemma classify_mode_ok t s m att :
  classify t = Some (s, m, att) → stream_mode_ok s m = true.
Proof.
  unfold classify.
  repeat match goal with
         | |- context [if ?c then _ else _] => destruct c
         end; intros [= <- <- <-] || discriminate; reflexivity.
Qed.

Lemma operators_mode_ok tokens :
  Forall (λ o : std_stream * info, stream_mode_ok o.1 o.2.2 = true)
         (operators tokens).
Proof.
  remember (length tokens) as n eqn:Hn. revert tokens Hn.
  induction n as [n IH] using lt_wf_ind. intros [|t rest] Hn; simpl.
  { constructor. }
  simpl in Hn. pose proof (IH (length rest) ltac:(lia) rest eq_refl) as Hrest.
  destruct (classify t) as [[[s m] att]|] eqn:Hc; [|exact Hrest].
  apply classify_mode_ok in Hc.
  destruct (truthy att); [constructor; assumption|].
  destruct rest as [|fname rest']; [repeat constructor; assumption|].
  simpl in Hn. constructor; [assumption|].
  exact (IH (length rest') ltac:(lia) rest' eq_refl).
Qed.

Lemma last_for_mode_ok tokens s fname m :
  last_for s (operators tokens) = Some (fname, m) → stream_mode_ok s m = true.
Proof.
  unfold last_for. intros Hlast.
  apply last_Some_elem_of, list_elem_of_fmap in Hlast
    as ([s' x] & Hx & Hin).
  simpl in Hx. subst x.
  apply list_elem_of_filter in Hin as [Hs Hin]. simpl in Hs. subst s'.
  exact (proj1 (Forall_forall _ _) (operators_mode_ok tokens) _ Hin).
Qed.

(** X2: a redirection spec that the parser returns always has a
    filename, and the filename is not empty; the spec of stdin has the
    mode for reading, and the specs of stdout and stderr have the mode for
    writing or for appending. *)
Theorem returned_specs_well_formed `{RT : Runtime} (tokens : list string)
    (st : shell) :
  ∃ r st', parse_redirections tokens st = (Ok r, st') ∧
    ∀ s fname m, stream_spec s r = Some (fname, m) →
      (∃ f, fname = Some f ∧ truthy f = true) ∧ stream_mode_ok s m = true.
Proof.
  unfold parse_redirections. rewrite parse_redirections_spec. simpl.
  destruct (first_missing tokens) as [name|] eqn:Hmiss.
  { eexists _, _. split; [reflexivity|]. intros []; discriminate. }
  eexists _, _. split; [reflexivity|]. intros s fname m Hspec.
  assert (last_for s (operators tokens) = Some (fname, m)) as Hlast
    by (destruct s; exact Hspec).
  split; [|exact (last_for_mode_ok _ _ _ _ Hlast)].
  unfold first_missing in Hmiss. simpl in Hmiss.
  destruct (filename_missing (last_for Stdout (operators tokens))) eqn:Ho;
    [discriminate|].
  destruct (filename_missing (last_for Stderr (operators tokens))) eqn:He;
    [discriminate|].
  destruct (filename_missing (last_for Stdin (operators tokens))) eqn:Hi;
    [discriminate|].
  assert (filename_missing (Some (fname, m)) = false) as Hok
    by (rewrite <- Hlast; destruct s; assumption).
  simpl in Hok. destruct fname as [f|]; [|discriminate].
  exists f. split; [reflexivity|]. destruct (truthy f); [reflexivity|discriminate].
Qed.

Lemma operator_meaning_classify op s m :
  operator_meaning op = Some (s, m) → classify op = Some (s, m, "").
Proof.
  unfold operator_meaning.
  repeat case_bool_decide; intros Hop; try discriminate;
    injection Hop as <- <-;
    repeat match goal with
           | H : _ ∈ _ |- _ =>
               rewrite ?elem_of_cons, elem_of_nil in H;
               destruct H as [->|[->|[]]]
           | H : op = _ |- _ => subst op
           end; reflexivity.
Qed.

Lemma prefix_cons a p b t :
  String.prefix (String a p) (String b t)
  = if ascii_dec a b then String.prefix p t else false.
Proof. reflexivity. Qed.

Lemma prefix_empty t : String.prefix "" t = true.
Proof. destruct t; reflexivity. Qed.

Lemma operator_meaning_attached op s m c f :
  operator_meaning op = Some (s, m) →
  startswith ">" (String c f) = false →
  classify (op ++ String c f) = Some (s, m, String c f).
Proof.
  unfold operator_meaning. intros Hop Hc.
  unfold startswith in Hc. rewrite prefix_cons, prefix_empty in Hc.
  destruct (ascii_dec ">" c) as [|Hne]; [discriminate|]. clear Hc.
  revert Hop.
  repeat case_bool_decide; intros Hop; try discriminate;
    injection Hop as <- <-;
    repeat match goal with
           | H : _ ∈ _ |- _ =>
               rewrite ?elem_of_cons, elem_of_nil in H;
               destruct H as [->|[->|[]]]
           | H : op = _ |- _ => subst op
           end;
    unfold classify, startswith; cbv beta iota delta [append];
    repeat first
      [ rewrite prefix_cons
      | rewrite prefix_empty
      | match goal with
        | |- context [ascii_dec ?a ?b] =>
            destruct (ascii_dec a b); try congruence
        end ];
    reflexivity.
Qed.

Lemma plain_prefix_read xs tokens :
  forallb plain_token xs = true →
  operators (xs ++ tokens) = operators tokens ∧
  arguments (xs ++ tokens) = (xs ++ arguments tokens)%list.
Proof.
  induction xs as [|x xs IH]; simpl; [auto|].
  rewrite andb_true_iff. intros [Hx Hxs].
  rewrite (plain_token_classify _ Hx).
  destruct (IH Hxs) as [-> ->]. auto.
Qed.

Lemma last_for_single s x : last_for s [(s, x)] = Some x.
Proof. unfold last_for. rewrite filter_cons_True by reflexivity. reflexivity. Qed.

Lemma last_for_other s s' x : s ≠ s' → last_for s' [(s, x)] = None.
Proof.
  intros Hne. unfold last_for. rewrite filter_cons_False by (simpl; auto).
  reflexivity.
Qed.

(** What the parser returns when the token list has one operator, with
    a filename that is not empty. *)
Lemma parse_single_operator `{RT : Runtime} tokens args s f m (st : shell) :
  operators tokens = [(s, (Some f, m))] → arguments tokens = args →
  truthy f = true →
  parse_redirections tokens st = (Ok (with_only s (Some f, m) args), st).
Proof.
  intros Hops Hargs Hf. unfold parse_redirections.
  rewrite parse_redirections_spec. unfold first_missing. simpl.
  rewrite Hops, Hargs.
  destruct s;
    rewrite ?last_for_single, ?last_for_other by discriminate; simpl;
    rewrite Hf; reflexivity.
Qed.

(** X3: an operator of the table that stands as a token of its
    own takes the token after it as its filename, whatever that token
    looks like (it may itself begin with an operator), provided it is not
    empty; both tokens are removed from the arguments. *)
Theorem detached_filename `{RT : Runtime} (xs ys : list string)
    (op f : string) (s : std_stream) (m : mode) (st : shell) :
  operator_meaning op = Some (s, m) →
  truthy f = true →
  forallb plain_token xs = true →
  forallb plain_token ys = true →
  parse_redirections (xs ++ op :: f :: ys) st
    = (Ok (with_only s (Some f, m) (xs ++ ys)), st).
Proof.
  intros Hop Hf Hxs Hys.
  apply operator_meaning_classify in Hop.
  destruct (plain_prefix_read xs (op :: f :: ys) Hxs) as [Hops Hargs].
  destruct (plain_tokens_read ys Hys) as [Hoys Hays].
  apply parse_single_operator; [| |exact Hf].
  - rewrite Hops. simpl. rewrite Hop. simpl. rewrite Hoys. reflexivity.
  - rewrite Hargs. simpl. rewrite Hop. simpl. rewrite Hays. reflexivity.
Qed.

Lemma detached_filename_witness :
  parse_redirections (["-n"; "hi"] ++ "2>>" :: ">log" :: ["there"]) Toy.start
    = (Ok (["-n"; "hi"; "there"], None, Some (Some ">log", ModeA), None),
       Toy.start).
Proof.
  apply (detached_filename ["-n"; "hi"] ["there"] "2>>" ">log" Stderr ModeA
           Toy.start); reflexivity.
Defined.

(** X4: an operator of the table with text attached to it takes
    that text as its filename, when the text is not empty and does not
    begin with [>]; the token is removed from the arguments and the
    token after it is left alone. *)
Theorem attached_filename `{RT : Runtime} (xs ys : list string)
    (op f : string) (s : std_stream) (m : mode) (st : shell) :
  operator_meaning op = Some (s, m) →
  truthy f = true →
  startswith ">" f = false →
  forallb plain_token xs = true →
  forallb plain_token ys = true →
  parse_redirections (xs ++ (op ++ f) :: ys) st
    = (Ok (with_only s (Some f, m) (xs ++ ys)), st).
Proof.
  intros Hop Hf Hgt Hxs Hys.
  destruct f as [|c f]; [discriminate|].
  pose proof (operator_meaning_attached _ _ _ _ _ Hop Hgt) as Hc.
  destruct (plain_prefix_read xs ((op ++ String c f) :: ys) Hxs)
    as [Hops Hargs].
  destruct (plain_tokens_read ys Hys) as [Hoys Hays].
  apply parse_single_operator; [| |reflexivity].
  - rewrite Hops. simpl. rewrite Hc. simpl. rewrite Hoys. reflexivity.
  - rewrite Hargs. simpl. rewrite Hc. simpl. rewrite Hays. reflexivity.
Qed.

Lemma attached_filename_witness :
  parse_redirections (["hi"] ++ ("1>" ++ "out.txt") :: ["there"]) Toy.start
    = (Ok (["hi"; "there"], Some (Some "out.txt", ModeW), None, None),
       Toy.start).
Proof.
  apply (attached_filename ["hi"] ["there"] "1>" "out.txt" Stdout ModeW
           Toy.start); reflexivity.
Defined.

(** ** The PATH utilities and the resolver *)

Lemma split_all_no_pathsep d :
  no_pathsep d = true → split_all pathsep d = [d].
Proof.
  induction d as [|c d IH]; simpl; [reflexivity|].
  rewrite andb_true_iff, negb_true_iff. intros [Hc Hd].
  rewrite Hc, (IH Hd). reflexivity.
Qed.

Lemma split_all_append d rest :
  no_pathsep d = true →
  split_all pathsep (d ++ String pathsep rest) = d :: split_all pathsep rest.
Proof.
  induction d as [|c d IH]; simpl; [reflexivity|].
  rewrite andb_true_iff, negb_true_iff. intros [Hc Hd].
  change (String c d ++ String pathsep rest)
    with (String c (d ++ String pathsep rest)).
  simpl. rewrite Hc, (IH Hd). reflexivity.
Qed.

Lemma split_all_join dirs :
  dirs ≠ [] → forallb no_pathsep dirs = true →
  split_all pathsep (join_with ":" dirs) = dirs.
Proof.
  induction dirs as [|d dirs IH]; [congruence|]. intros _. simpl.
  rewrite andb_true_iff. intros [Hd Hdirs].
  destruct dirs as [|d' dirs]; [exact (split_all_no_pathsep d Hd)|].
  change (":" ++ join_with ":" (d' :: dirs))
    with (String pathsep (join_with ":" (d' :: dirs))).
  rewrite (split_all_append _ _ Hd), IH by (congruence || exact Hdirs).
  reflexivity.
Qed.

(** X5: when [PATH] is the directories [dirs] joined by colons, no
    directory name having a colon in it, [get_path_dirs] gives back
    [dirs], empty names included, in the same order; the one exception is
    an empty [PATH], for which the list is empty. *)
Theorem get_path_dirs_round_trip `{RT : Runtime} (dirs : list string)
    (st : shell) :
  dirs ≠ [] →
  forallb no_pathsep dirs = true →
  environ st !! "PATH" = Some (join_with ":" dirs) →
  get_path_dirs st = if truthy (join_with ":" dirs) then dirs else [].
Proof.
  intros Hne Hsep Henv. unfold get_path_dirs, get_env. rewrite Henv.
  destruct (truthy (join_with ":" dirs)); [|reflexivity].
  exact (split_all_join dirs Hne Hsep).
Qed.

Lemma get_path_dirs_round_trip_witness :
  get_path_dirs
    (@initial Toy.runtime "/"
       {[ "PATH" := join_with ":" ["/usr/local/bin"; ""; "/bin"] ]})
  = ["/usr/local/bin"; ""; "/bin"].
Proof.
  apply (get_path_dirs_round_trip ["/usr/local/bin"; ""; "/bin"]
           (@initial Toy.runtime "/"
              {[ "PATH" := join_with ":" ["/usr/local/bin"; ""; "/bin"] ]}));
    [discriminate|reflexivity|reflexivity].
Defined.

Section ResolverFacts.
Context `{RT : Runtime}.
Implicit Types st : shell.

Lemma is_executable_file_value p st :
  (is_executable_file p st).1 = executable_at (os st) p ∧
  os (is_executable_file p st).2 = os st ∧
  exec_cache (is_executable_file p st).2 = exec_cache st.
Proof.
  unfold is_executable_file, executable_at, os_path_exists, os_access_x,
    os_path_isfile.
  destruct (path_exists (os st) p); [|auto]. simpl.
  destruct (access_x (os st) p); auto.
Qed.

Lemma is_executable_file_probes p st :
  ∃ evs, trace (is_executable_file p st).2 = (evs ++ trace st)%list ∧
         forallb (is_probe_of p) evs = true.
Proof.
  unfold is_executable_file, os_path_exists, os_access_x, os_path_isfile.
  destruct (path_exists (os st) p); simpl.
  - destruct (access_x (os st) p); simpl.
    + exists [EvProbe ProbeIsFile p; EvProbe ProbeAccessX p;
              EvProbe ProbeExists p].
      simpl. rewrite bool_decide_eq_true_2 by reflexivity. auto.
    + exists [EvProbe ProbeAccessX p; EvProbe ProbeExists p].
      simpl. rewrite bool_decide_eq_true_2 by reflexivity. auto.
  - exists [EvProbe ProbeExists p].
    simpl. rewrite bool_decide_eq_true_2 by reflexivity. auto.
Qed.

Lemma debug_os msg st : os (debug msg st) = os st.
Proof. unfold debug. destruct (DEBUG st); reflexivity. Qed.

Lemma search_path_dirs_spec name dirs st :
  os (search_path_dirs name dirs st).2 = os st ∧
  match (search_path_dirs name dirs st).1 with
  | Some p =>
      exec_cache (search_path_dirs name dirs st).2
        = <[name := Some p]> (exec_cache st) ∧
      ∃ pre d post,
        dirs = (pre ++ d :: post)%list ∧ truthy d = true ∧
        p = path_join d name ∧ executable_at (os st) p = true ∧
        ∀ d', d' ∈ pre → truthy d' = true →
              executable_at (os st) (path_join d' name) = false
  | None =>
      exec_cache (search_path_dirs name dirs st).2 = exec_cache st ∧
      ∀ d, d ∈ dirs → truthy d = true →
           executable_at (os st) (path_join d name) = false
  end.
Proof.
  revert st. induction dirs as [|d dirs IH]; intros st; simpl.
  { split; [reflexivity|]. split; [reflexivity|]. intros d Hd. inversion Hd. }
  destruct (truthy d) eqn:Hd; simpl.
  - destruct (is_executable_file_value (path_join d name) st)
      as (Hval & Hos & Hcache).
    destruct (is_executable_file (path_join d name) st) as [found st1].
    simpl in Hval, Hos, Hcache. destruct found; simpl.
    + rewrite debug_os, debug_exec_cache, Hcache. split; [exact Hos|].
      split; [reflexivity|]. exists [], d, dirs. split; [reflexivity|].
      split; [exact Hd|]. split; [reflexivity|]. split; [auto|].
      intros d' Hin. inversion Hin.
    + destruct (IH st1) as [Hos' Hres]. rewrite Hos', Hos in *.
      split; [reflexivity|].
      destruct (search_path_dirs name dirs st1).1 as [p|].
      * destruct Hres as (Hc & pre & d0 & post & -> & Hd0 & -> & Hx & Hpre).
        split; [congruence|]. exists (d :: pre), d0, post.
        split; [reflexivity|]. split; [exact Hd0|]. split; [reflexivity|].
        split; [exact Hx|].
        intros d' [->|Hin]%elem_of_cons Ht; [auto|exact (Hpre d' Hin Ht)].
      * destruct Hres as [Hc Hall]. split; [congruence|].
        intros d' [->|Hin]%elem_of_cons Ht; [auto|exact (Hall d' Hin Ht)].
  - destruct (IH st) as [Hos Hres]. split; [exact Hos|].
    destruct (search_path_dirs name dirs st).1 as [p|].
    + destruct Hres as (Hc & pre & d0 & post & -> & Hd0 & -> & Hx & Hpre).
      split; [exact Hc|]. exists (d :: pre), d0, post.
      split; [reflexivity|]. split; [exact Hd0|]. split; [reflexivity|].
      split; [exact Hx|].
      intros d' [->|Hin]%elem_of_cons Ht; [congruence|exact (Hpre d' Hin Ht)].
    + destruct Hres as [Hc Hall]. split; [exact Hc|].
      intros d' [->|Hin]%elem_of_cons Ht; [congruence|exact (Hall d' Hin Ht)].
Qed.

End ResolverFacts.

(** X6: a name that is not an absolute path and is not in the
    cache is resolved to the first directory of [PATH], from left to
    right and leaving out empty names, in which [<dir>/<name>] exists, may
    be executed and is a regular file; when there is none the answer is
    not-found.  Either answer is put into the cache under the name, and
    the state of the operating system is not changed. *)
Theorem path_search_first_match `{RT : Runtime} (name : string) (st : shell) :
  exec_cache st !! name = None →
  isabs name = false →
  let r := (find_executable_in_path name st).1 in
  let st1 := (find_executable_in_path name st).2 in
  os st1 = os st ∧ exec_cache st1 = <[name := r]> (exec_cache st) ∧
  match r with
  | Some p =>
      ∃ pre d post,
        get_path_dirs st = (pre ++ d :: post)%list ∧ truthy d = true ∧
        p = path_join d name ∧ executable_at (os st) p = true ∧
        ∀ d', d' ∈ pre → truthy d' = true →
              executable_at (os st) (path_join d' name) = false
  | None =>
      ∀ d, d ∈ get_path_dirs st → truthy d = true →
           executable_at (os st) (path_join d name) = false
  end.
Proof.
  intros Hmiss Habs. unfold find_executable_in_path. rewrite Hmiss, Habs.
  destruct (search_path_dirs_spec name (get_path_dirs st) st) as [Hos Hres].
  destruct (search_path_dirs name (get_path_dirs st) st) as [[p|] st1];
    simpl in *.
  - destruct Hres as [Hc Hfirst]. auto.
  - destruct Hres as [Hc Hall]. rewrite Hc. auto.
Qed.

Lemma path_search_first_match_witness :
  exec_cache Toy.start !! "ls" = None ∧ isabs "ls" = false ∧
  (find_executable_in_path "ls" Toy.start).1 = Some "/bin/ls" ∧
  exec_cache (find_executable_in_path "ls" Toy.start).2
    = <["ls" := Some "/bin/ls"]> (exec_cache Toy.start).
Proof.
  split; [reflexivity|]. split; [reflexivity|]. split; [reflexivity|].
  destruct (path_search_first_match "ls" Toy.start eq_refl eq_refl)
    as (_ & Hcache & _).
  exact Hcache.
Defined.

(** X7: an absolute path that is not in the cache is never looked
    for in the directories of [PATH]: the only tests of the file system
    are on the path itself, the answer is the path when it exists, may be
    executed and is a regular file, and not-found otherwise, and only a
    found path is put into the cache. *)
Theorem absolute_name_bypasses_path `{RT : Runtime} (name : string)
    (st : shell) :
  exec_cache st !! name = None →
  isabs name = true →
  let r := (find_executable_in_path name st).1 in
  let st1 := (find_executable_in_path name st).2 in
  r = (if executable_at (os st) name then Some name else None) ∧
  exec_cache st1
    = (if executable_at (os st) name
       then <[name := Some name]> (exec_cache st) else exec_cache st) ∧
  os st1 = os st ∧
  ∃ evs, trace st1 = (evs ++ trace st)%list ∧
         forallb (is_probe_of name) evs = true.
Proof.
  intros Hmiss Habs. unfold find_executable_in_path. rewrite Hmiss, Habs.
  destruct (is_executable_file_value name st) as (Hval & Hos & Hcache).
  destruct (is_executable_file_probes name st) as (evs & Htrace & Hevs).
  destruct (is_executable_file name st) as [found st1]. simpl in *.
  rewrite <- Hval. destruct found; simpl; rewrite ?Hcache; eauto 10.
Qed.

Lemma absolute_name_bypasses_path_witness :
  exec_cache Toy.start !! "/tmp/notes.txt" = None ∧
  isabs "/tmp/notes.txt" = true ∧
  (find_executable_in_path "/tmp/notes.txt" Toy.start).1 = None ∧
  (find_executable_in_path "/bin/ls" Toy.start).1 = Some "/bin/ls".
Proof.
  split; [reflexivity|]. split; [reflexivity|].
  destruct (absolute_name_bypasses_path "/tmp/notes.txt" Toy.start
              eq_refl eq_refl) as (-> & _).
  destruct (absolute_name_bypasses_path "/bin/ls" Toy.start
              eq_refl eq_refl) as (-> & _).
  split; reflexivity.
Defined.

(** Every way out of the resolver other than the miss of an absolute
    path leaves the answer in the cache. *)
Lemma find_executable_in_path_caches `{RT : Runtime} name (st st1 : shell) r :
  find_executable_in_path name st = (r, st1) →
  is_Some r ∨ isabs name = false →
  exec_cache st1 !! name = Some r.
Proof.
  intros Hfirst Hcase. unfold find_executable_in_path in Hfirst.
  destruct (exec_cache st !! name) as [cached|] eqn:Hc.
  { injection Hfirst as <- <-. exact Hc. }
  destruct (isabs name) eqn:Habs.
  - destruct (is_executable_file name st) as [found st'].
    destruct found; injection Hfirst as <- <-.
    + simpl. apply lookup_insert_eq.
    + destruct Hcase as [[? [=]]|[=]].
  - destruct (search_path_dirs name (get_path_dirs st) st) as [[c|] st'] eqn:Hs;
      injection Hfirst as <- <-.
    + exact (search_path_dirs_found _ _ _ _ _ Hs).
    + simpl. apply lookup_insert_eq.
Qed.

(** X8: once a name has been resolved to a path, or a name that
    is not an absolute path has been resolved to not-found, every later
    call with that name gives the same answer and leaves the state as it
    is, without a test of the file system, in any later state that has
    the same cache entry: changes of the file system, of [PATH] or of the
    working directory in between are not seen. *)
Theorem resolver_answer_is_kept `{RT : Runtime} (name : string)
    (st st1 st2 : shell) (r : option string) :
  find_executable_in_path name st = (r, st1) →
  is_Some r ∨ isabs name = false →
  exec_cache st2 !! name = exec_cache st1 !! name →
  find_executable_in_path name st2 = (r, st2).
Proof.
  intros Hfirst Hcase Hsame. apply find_executable_in_path_hit.
  rewrite Hsame. exact (find_executable_in_path_caches _ _ _ _ Hfirst Hcase).
Qed.

Lemma resolver_answer_is_kept_witness :
  let st1 := (find_executable_in_path "nothere" Toy.start).2 in
  let st2 := set_environ {[ "PATH" := "/tmp" ]} (set_os ("/tmp" : string) st1) in
  find_executable_in_path "nothere" Toy.start = (None, st1) ∧
  find_executable_in_path "nothere" st2 = (None, st2).
Proof.
  split; [reflexivity|].
  apply (resolver_answer_is_kept "nothere" Toy.start
           (find_executable_in_path "nothere" Toy.start).2);
    [reflexivity | right; reflexivity | reflexivity].
Defined.

(** ** Command execution *)

Section ExecutionFacts.
Context `{RT : Runtime}.
Implicit Types st : shell.

Lemma added_refl P st : added P st st.
Proof. exists []. auto. Qed.

Lemma added_trans P st1 st2 st3 :
  added P st1 st2 → added P st2 st3 → added P st1 st3.
Proof.
  intros (evs1 & H1 & HP1) (evs2 & H2 & HP2). exists (evs2 ++ evs1)%list.
  rewrite H2, H1, <- app_assoc, forallb_app, HP1, HP2. auto.
Qed.

Lemma added_log P e st : P e = true → added P st (log e st).
Proof. intros HP. exists [e]. simpl. rewrite HP. auto. Qed.

Lemma added_same P st st' : trace st' = trace st → added P st st'.
Proof. intros H. exists []. auto. Qed.

Lemma added_debug msg st : added is_write_or_probe st (debug msg st).
Proof.
  unfold debug. destruct (DEBUG st); [|apply added_refl].
  apply added_log. reflexivity.
Qed.

Lemma added_is_executable_file p st :
  added is_write_or_probe st (is_executable_file p st).2.
Proof.
  unfold is_executable_file, os_path_exists, os_access_x, os_path_isfile.
  destruct (path_exists (os st) p); simpl.
  - destruct (access_x (os st) p); simpl.
    + exists [EvProbe ProbeIsFile p; EvProbe ProbeAccessX p;
              EvProbe ProbeExists p]. auto.
    + exists [EvProbe ProbeAccessX p; EvProbe ProbeExists p]. auto.
  - exists [EvProbe ProbeExists p]. auto.
Qed.

Lemma added_search_path_dirs name dirs st :
  added is_write_or_probe st (search_path_dirs name dirs st).2.
Proof.
  revert st. induction dirs as [|d dirs IH]; intros st; simpl.
  { apply added_refl. }
  destruct (truthy d); simpl; [|apply IH].
  pose proof (added_is_executable_file (path_join d name) st) as Hx.
  destruct (is_executable_file (path_join d name) st) as [found st1].
  simpl in Hx. destruct found; simpl.
  - eapply added_trans; [exact Hx|].
    eapply added_trans; [apply added_debug|]. apply added_same. reflexivity.
  - eapply added_trans; [exact Hx|apply IH].
Qed.

Lemma added_find_executable_in_path name st :
  added is_write_or_probe st (find_executable_in_path name st).2.
Proof.
  unfold find_executable_in_path.
  destruct (exec_cache st !! name); [apply added_refl|].
  destruct (isabs name).
  - pose proof (added_is_executable_file name st) as Hx.
    destruct (is_executable_file name st) as [found st1].
    destruct found; simpl in *; [|exact Hx].
    eapply added_trans; [exact Hx|]. apply added_same. reflexivity.
  - pose proof (added_search_path_dirs name (get_path_dirs st) st) as Hs.
    destruct (search_path_dirs name (get_path_dirs st) st) as [[c|] st1];
      simpl in *; [exact Hs|].
    eapply added_trans; [exact Hs|]. apply added_same. reflexivity.
Qed.

Lemma added_print msg st : added is_write_or_probe st (print msg st).
Proof. apply added_log. reflexivity. Qed.

Lemma added_print_err msg st : added is_write_or_probe st (print_err msg st).
Proof. apply added_log. reflexivity. Qed.


End ExecutionFacts.



(** X10: a command that is not a builtin and whose name, not an
    absolute path, was once resolved to not-found stays not found: in
    every later state with the same cache entry, [execute_command] writes
    [<name>: command not found] to the standard output and does nothing
    else, without a test of the file system, even when a program of
    that name has appeared on [PATH] in the meantime. *)
Theorem not_found_is_remembered `{RT : Runtime} (cmd_name : string)
    (args : list string) (st st1 st2 : shell) :
  assoc cmd_name shell_builtins = None →
  isabs cmd_name = false →
  find_executable_in_path cmd_name st = (None, st1) →
  exec_cache st2 !! cmd_name = exec_cache st1 !! cmd_name →
  execute_command cmd_name args st2
    = (Ok tt,
       print (cmd_name ++ ": command not found")
             (log (EvExecute cmd_name args) st2)).
Proof.
  intros Hnb Habs Hfirst Hsame.
  pose proof (find_executable_in_path_caches _ _ _ _ Hfirst (or_intror Habs))
    as Hcached.
  unfold execute_command. rewrite Hnb.
  rewrite (find_executable_in_path_hit cmd_name _ None)
    by (simpl; congruence).
  reflexivity.
Qed.

Lemma not_found_is_remembered_witness :
  let st1 := (find_executable_in_path "notes.txt" Toy.start).2 in
  let st2 := set_environ {[ "PATH" := "/bin:/tmp" ]} st1 in
  find_executable_in_path "notes.txt" Toy.start = (None, st1) ∧
  execute_command "notes.txt" [] st2
    = (Ok tt,
       print "notes.txt: command not found"
             (log (EvExecute "notes.txt" []) st2)).
Proof.
  split; [reflexivity|].
  apply (not_found_is_remembered "notes.txt" [] Toy.start
           (find_executable_in_path "notes.txt" Toy.start).2);
    reflexivity.
Defined.








(** X13: when the working directory cannot be read, the builtin
    [pwd] run by [execute_command] does not raise: the error is caught,
    [pwd: error: <detail>] is written to the standard error stream, and
    the call returns. *)
Theorem pwd_failure_is_reported `{RT : Runtime} (args : list string)
    (st : shell) (msg : string) :
  getcwd (os st) = Failure msg →
  execute_command "pwd" args st
    = (Ok tt,
       print_err ("pwd: error: " ++ msg)
         (debug ("Executing builtin: pwd " ++ repr_list args)
            (log (EvExecute "pwd" args) st))).
Proof.
  intros Hcwd. unfold execute_command. simpl.
  unfold builtin_pwd, os_getcwd. rewrite debug_os. simpl. rewrite Hcwd.
  reflexivity.
Qed.

Lemma pwd_failure_is_reported_witness :
  @execute_command lost_runtime "pwd" [] (@initial lost_runtime tt ∅)
    = (Ok tt,
       @print_err lost_runtime
         "pwd: error: [Errno 2] No such file or directory"
         (@log lost_runtime (EvExecute "pwd" [])
            (@initial lost_runtime tt ∅))).
Proof.
  exact (@pwd_failure_is_reported lost_runtime [] (@initial lost_runtime tt ∅)
           "[Errno 2] No such file or directory" eq_refl).
Defined.

(** X14: whatever its arguments, [cd] either leaves the state of
    the operating system and the environment as they are, or makes one
    successful [os.chdir] to a target that exists and is a directory and
    sets [PWD] to that same target; it never touches the cache of the
    resolver. *)
Theorem cd_changes_only_by_chdir `{RT : Runtime} (args : list string)
    (st : shell) :
  let st' := (builtin_cd args st).2 in
  exec_cache st' = exec_cache st ∧
  ((os st' = os st ∧ environ st' = environ st) ∨
   ∃ target,
     path_exists (os st) target = true ∧ path_isdir (os st) target = true ∧
     chdir (os st) target = Success (os st') ∧
     environ st' = <["PWD" := target]> (environ st)).
Proof.
  assert (∀ target,
            exec_cache (cd_to target st).2 = exec_cache st ∧
            ((os (cd_to target st).2 = os st ∧
              environ (cd_to target st).2 = environ st) ∨
             ∃ t,
               path_exists (os st) t = true ∧ path_isdir (os st) t = true ∧
               chdir (os st) t = Success (os (cd_to target st).2) ∧
               environ (cd_to target st).2 = <["PWD" := t]> (environ st)))
    as Hcd.
  { intros target. unfold cd_to, os_path_exists, os_path_isdir.
    destruct (cd_resolve target st) as [t|]; [|auto]. simpl.
    destruct (path_exists (os st) t) eqn:He; [|auto]. simpl.
    destruct (path_isdir (os st) t) eqn:Hd; [|auto]. simpl.
    destruct (chdir (os st) t) as [o'|msg] eqn:Hch; [|auto]. simpl.
    split; [reflexivity|]. right. exists t. auto. }
  unfold builtin_cd. simpl.
  destruct (length args =? 0); [apply Hcd|].
  destruct (length args =? 1); [|auto].
  destruct (getitem args 0); [apply Hcd|auto].
Qed.

(** ** The redirection helpers *)

Lemma get_stream_set_stream `{RT : Runtime} s s' h (st : shell) :
  get_stream s (set_stream s' h st)
  = if decide (s' = s) then h else get_stream s st.
Proof. destruct s, s'; reflexivity. Qed.

Lemma get_stream_enter_contexts `{RT : Runtime} s contexts callbacks
    (st : shell) :
  get_stream s (enter_contexts contexts callbacks st).2
  = default (get_stream s st) (latest_for s contexts).
Proof.
  revert callbacks st.
  induction contexts as [|[s' f] contexts IH]; intros callbacks st; simpl.
  - reflexivity.
  - rewrite IH, get_stream_set_stream.
    destruct (latest_for s contexts); [reflexivity|].
    destruct (decide (s' = s)); reflexivity.
Qed.

(** X15: for every list of redirection contexts, also with
    several contexts for one stream, each standard stream refers, once
    the contexts are entered, to the file of the latest context for it,
    or to what it referred to before when there is none; and leaving the
    exit stack gives the three streams back as they were before the first
    context was entered. *)
Theorem exit_stack_restores `{RT : Runtime} (contexts : list context_manager)
    (st : shell) :
  (∀ s, get_stream s (enter_contexts contexts [] st).2
        = default (get_stream s st) (latest_for s contexts)) ∧
  streams (exit_stack (enter_contexts contexts [] st).1
                      (enter_contexts contexts [] st).2)
  = streams st.
Proof.
  split; [intros s; apply get_stream_enter_contexts|].
  rewrite streams_exit_stack. exact (unwind_enter_contexts contexts [] st).
Qed.

Lemma alter_last_file `{RT : Runtime} (fs : list file_obj) fo :
  alter mark_closed (length fs) (fs ++ [fo])%list = (fs ++ [mark_closed fo])%list.
Proof.
  replace (length fs) with (length fs + 0) at 1 by lia.
  rewrite alter_app_r. reflexivity.
Qed.

(** X16: the line [echo w1 ... wn OP file], with an operator of
    the table, a file that can be opened, and debugging off.  The target
    is opened, the stream of the operator is set to the new file object,
    [echo] writes the words joined by spaces to what the standard output
    then refers to (the file object when the operator is one for stdout,
    the stream from before otherwise), the stream is set back, and the
    file object is closed. *)
Theorem redirected_echo `{RT : Runtime} (words : list string)
    (op f : string) (s : std_stream) (m : mode) (st : shell)
    (o' : os_state) :
  forallb plain_token words = true →
  operator_meaning op = Some (s, m) →
  truthy f = true →
  open_file (os st) f m = Success o' →
  DEBUG st = false →
  ∃ st',
    command_line "echo" (words ++ [op; f]) st = (Normal, st') ∧
    trace st' =
      EvSetStream s (get_stream s st)
      :: EvWrite (if decide (s = Stdout) then FileObj (length (files st))
                  else sys_stdout st)
                 (join_with " " words ++ nl)
      :: EvExecute "echo" words
      :: EvSetStream s (FileObj (length (files st)))
      :: trace st ∧
    files st' = (files st ++ [FileObject f m true])%list ∧
    os st' = o' ∧ streams st' = streams st.
Proof.
  intros Hwords Hop Hf Hopen Hdebug.
  assert (parse_redirections (words ++ [op; f]) st
          = (Ok (with_only s (Some f, m) words), st)) as Hparse.
  { apply operator_meaning_classify in Hop.
    destruct (plain_prefix_read words [op; f] Hwords) as [Hops Hargs].
    apply parse_single_operator; [| |exact Hf].
    - rewrite Hops. simpl. rewrite Hop. reflexivity.
    - rewrite Hargs. simpl. rewrite Hop. simpl. apply app_nil_r. }
  unfold command_line. rewrite Hparse.
  destruct s; simpl; unfold try_body, open_redirection, py_open; simpl;
    rewrite Hopen; simpl; unfold with_block, execute_command; simpl;
    unfold debug; simpl; rewrite Hdebug; simpl;
    rewrite alter_last_file; eexists; (split; [reflexivity|]);
    simpl; repeat split; destruct st; reflexivity.
Qed.

Lemma redirected_echo_witness :
  ∃ st',
    command_line "echo" (["a"; "b"] ++ ["2>"; "/tmp/err"]) Toy.start
      = (Normal, st') ∧
    trace st' =
      [EvSetStream Stderr (Console Stderr);
       EvWrite (Console Stdout) ("a b" ++ nl);
       EvExecute "echo" ["a"; "b"];
       EvSetStream Stderr (FileObj 0)] ∧
    files st' = [FileObject "/tmp/err" ModeW true].
Proof.
  destruct (redirected_echo ["a"; "b"] "2>" "/tmp/err" Stderr ModeW Toy.start
              ("/home/user" : string) eq_refl eq_refl eq_refl eq_refl eq_refl)
    as (st' & Hline & Htrace & Hfiles & _).
  exists st'. split; [exact Hline|]. split; [exact Htrace|exact Hfiles].
Defined.

(** ** Tab completion *)

Section CompleterFacts.
Context `{RT : Runtime}.
Variable listdir : os_state → string → result (list string).
Variable set_of : list string → list string.

Lemma elem_of_matching (text o : string) (names : list string) :
  o ∈ matching text names ↔ o ∈ names ∧ startswith text o = true.
Proof.
  unfold matching. rewrite !list_elem_of_In. apply filter_In.
Qed.

Lemma list_paths_sound (text : string) (ds acc ps : list string) (st : shell) :
  list_paths listdir text ds acc st = Ok ps →
  ∀ o, o ∈ ps →
    o ∈ acc ∨
    (startswith text o = true ∧
     ∃ d fs, d ∈ ds ∧ listdir (os st) d = Ok fs ∧ o ∈ fs).
Proof.
  revert acc. induction ds as [|d ds IH]; intros acc Hps o Ho; simpl in Hps.
  - injection Hps as <-. left. exact Ho.
  - destruct (listdir (os st) d) as [fs|e] eqn:Hd.
    + destruct (IH _ Hps o Ho) as [Hacc|(Hm & d' & fs' & Hd' & Hfs' & Hin)].
      * apply elem_of_app in Hacc as [Hacc|Hnew]; [left; exact Hacc|].
        apply elem_of_matching in Hnew as [Hin Hm].
        right. split; [exact Hm|]. exists d, fs.
        split; [left|]. split; [exact Hd|exact Hin].
      * right. split; [exact Hm|]. exists d', fs'.
        split; [right; exact Hd'|]. split; [exact Hfs'|exact Hin].
    + destruct e; try discriminate Hps.
      destruct (IH _ Hps o Ho) as [Hacc|(Hm & d' & fs' & Hd' & Hfs' & Hin)];
        [left; exact Hacc|].
      right. split; [exact Hm|]. exists d', fs'.
      split; [right; exact Hd'|]. split; [exact Hfs'|exact Hin].
Qed.



Lemma list_paths_skips (text : string) (ds1 ds2 acc : list string)
    (d msg : string) (st st' : shell) :
  os st' = os st →
  listdir (os st) d = Raise (FileNotFoundError msg) →
  list_paths listdir text (ds1 ++ d :: ds2) acc st
  = list_paths listdir text (ds1 ++ ds2) acc st'.
Proof.
  intros Hos Hd. revert acc.
  induction ds1 as [|d1 ds1 IH]; intros acc; simpl.
  - rewrite Hd. clear Hd. revert acc.
    induction ds2 as [|d2 ds2 IH2]; intros acc; simpl; [reflexivity|].
    rewrite Hos. destruct (listdir (os st) d2) as [fs|[]]; auto.
  - rewrite Hos. destruct (listdir (os st) d1) as [fs|[]]; auto.
Qed.


Lemma option_at_elem (options : list string) (state : Z) (c : string) :
  option_at options state = Ok (Some c) → c ∈ options.
Proof.
  unfold option_at, getitem. intros H.
  destruct (state <? Z.of_nat (length options))%Z; [|discriminate H].
  destruct (0 <=? state)%Z.
  - destruct (options !! Z.to_nat state) as [o|] eqn:Ho; simpl in H;
      [|discriminate H].
    injection H as <-. eapply list_elem_of_lookup_2, Ho.
  - destruct (0 <=? Z.of_nat (length options) + state)%Z; [|discriminate H].
    destruct (options !! Z.to_nat (Z.of_nat (length options) + state))
      as [o|] eqn:Ho; simpl in H; [|discriminate H].
    injection H as <-. eapply list_elem_of_lookup_2, Ho.
Qed.


End CompleterFacts.


Lemma completer_options `{RT : Runtime}
    (listdir : os_state → string → result (list string))
    (set_of : list string → list string) (text : string) (state : Z)
    (st : shell) (r : option string) :
  completer listdir set_of text state st = Ok r →
  ∃ paths,
    (if (2 <=? String.length text)%nat
     then list_paths listdir text (get_path_dirs st) [] st
     else Ok []) = Ok paths ∧
    ∀ state',
      completer listdir set_of text state' st
      = option_at ((λ o, o ++ " ")
                   <$> set_of (matching text (shell_builtins.*1) ++ paths)%list)
                  state'.
Proof.
  unfold completer. intros H.
  destruct (if (2 <=? String.length text)%nat
            then list_paths listdir text (get_path_dirs st) [] st
            else Ok []) as [paths|e]; [|discriminate H].
  exists paths. split; reflexivity.
Qed.

(** X17: whatever the completer offers is a candidate: a
    completion is a name followed by one space, the name starts with the
    typed text, and it is a key of [shell_builtins] or, when at least two
    characters were typed, an entry of a directory of PATH.  Only that
    the iteration over a set yields elements of the set is assumed. *)
Theorem completions_are_candidates `{RT : Runtime}
    (listdir : os_state → string → result (list string))
    (set_of : list string → list string) (text : string) (state : Z)
    (st : shell) (c : string) :
  (∀ l x, x ∈ set_of l → x ∈ l) →
  completer listdir set_of text state st = Ok (Some c) →
  ∃ o, c = o ++ " " ∧ startswith text o = true ∧
       (o ∈ shell_builtins.*1 ∨
        (2 ≤ String.length text ∧ on_path listdir o st)).
Proof.
  intros Hset H.
  destruct (completer_options _ _ _ _ _ _ H) as (paths & Hpaths & Heq).
  rewrite Heq in H. apply option_at_elem in H.
  apply list_elem_of_fmap in H as (o & -> & Ho).
  exists o. split; [reflexivity|].
  apply Hset, elem_of_app in Ho as [Hb|Hp].
  - apply elem_of_matching in Hb as [Hb Hm]. split; [exact Hm|left; exact Hb].
  - destruct (Nat.leb_spec 2 (String.length text)) as [Hlen|Hlen].
    + destruct (list_paths_sound _ _ _ _ _ _ Hpaths o Hp)
        as [Hnil|(Hm & d & fs & Hd & Hfs & Hin)];
        [apply elem_of_nil in Hnil as []|].
      split; [exact Hm|]. right. split; [exact Hlen|].
      exists d, fs. split; [exact Hd|]. split; [exact Hfs|exact Hin].
    + injection Hpaths as <-. apply elem_of_nil in Hp as [].
Qed.

Lemma completions_are_candidates_witness :
  completer ToyCompleter.listdir ToyCompleter.set_of "ec" 0 Toy.start
    = Ok (Some "echo ") ∧
  ∃ o, "echo " = o ++ " " ∧ startswith "ec" o = true ∧
       (o ∈ shell_builtins.*1 ∨
        (2 ≤ String.length "ec" ∧ on_path ToyCompleter.listdir o Toy.start)).
Proof.
  split; [reflexivity|].
  apply (completions_are_candidates ToyCompleter.listdir ToyCompleter.set_of
           "ec" 0 Toy.start "echo ").
  - intros l x. unfold ToyCompleter.set_of. rewrite elem_of_remove_dups. tauto.
  - reflexivity.
Defined.



(** X19: a directory of PATH that does not exist is passed over:
    the completer answers as it does with that directory taken out of
    PATH. *)
Theorem missing_directory_is_skipped `{RT : Runtime}
    (listdir : os_state → string → result (list string))
    (set_of : list string → list string) (text : string) (state : Z)
    (st st' : shell) (ds1 ds2 : list string) (d msg : string) :
  get_path_dirs st = (ds1 ++ d :: ds2)%list →
  get_path_dirs st' = (ds1 ++ ds2)%list →
  os st' = os st →
  listdir (os st) d = Raise (FileNotFoundError msg) →
  completer listdir set_of text state st
  = completer listdir set_of text state st'.
Proof.
  intros Hst Hst' Hos Hd. unfold completer. rewrite Hst, Hst'.
  rewrite (list_paths_skips listdir text ds1 ds2 [] d msg st st' Hos Hd).
  reflexivity.
Qed.

Lemma missing_directory_is_skipped_witness :
  completer ToyCompleter.listdir ToyCompleter.set_of "en" 0
    (@initial Toy.runtime "/home/user" {[ "PATH" := "/opt:/bin" ]})
  = completer ToyCompleter.listdir ToyCompleter.set_of "en" 0 Toy.start.
Proof.
  apply (missing_directory_is_skipped ToyCompleter.listdir
           ToyCompleter.set_of "en" 0
           (@initial Toy.runtime "/home/user" {[ "PATH" := "/opt:/bin" ]})
           Toy.start [] ["/bin"] "/opt"
           "[Errno 2] No such file or directory: /opt");
    reflexivity.
Defined.



(** ** The builtin [type] and command execution *)

Lemma find_executable_in_path_repeat `{RT : Runtime} name
    (st st1 st2 : shell) r :
  find_executable_in_path name st = (r, st1) →
  os st2 = os st1 → exec_cache st2 = exec_cache st1 →
  (find_executable_in_path name st2).1 = r.
Proof.
  intros Hfirst Hos Hcache.
  destruct (decide (is_Some r ∨ isabs name = false)) as [Hcase|Hcase].
  { rewrite (find_executable_in_path_hit name st2 r); [reflexivity|].
    rewrite Hcache.
    exact (find_executable_in_path_caches _ _ _ _ Hfirst Hcase). }
  destruct r as [p|]; [destruct Hcase; left; eexists; reflexivity|].
  destruct (isabs name) eqn:Habs; [|destruct Hcase; right; reflexivity].
  unfold find_executable_in_path in Hfirst |- *.
  destruct (exec_cache st !! name) as [cached|] eqn:Hc.
  { injection Hfirst as -> <-. rewrite Hcache, Hc. reflexivity. }
  rewrite Habs in Hfirst |- *.
  destruct (is_executable_file_value name st) as (Hval & Hos1 & Hcache1).
  destruct (is_executable_file name st) as [found st'].
  simpl in Hval, Hos1, Hcache1.
  destruct found; [discriminate Hfirst|]. injection Hfirst as <-.
  rewrite Hcache, Hcache1, Hc.
  destruct (is_executable_file_value name st2) as (Hval2 & _ & _).
  destruct (is_executable_file name st2) as [found2 st2'].
  simpl in Hval2. rewrite Hval2, Hos, Hos1, <- Hval. reflexivity.
Qed.

Lemma added_since `{RT : Runtime} P (st st' : shell) ev evs0 base :
  added P st st' → trace st = (evs0 ++ base)%list → ev ∈ evs0 →
  ∃ evs, trace st' = (evs ++ base)%list ∧ ev ∈ evs.
Proof.
  intros (evs1 & -> & _) -> Hev. exists (evs1 ++ evs0)%list.
  split; [apply app_assoc|]. apply elem_of_app. right. exact Hev.
Qed.

(** X21: [type] tells what running the name does.  For a name that
    is not a builtin, [type] prints one of two lines; when the command
    is run right after with any arguments, [<name> is <path>] is followed
    by the start of the program at that very path with those arguments,
    and [<name>: not found] by the message [<name>: command not found]
    with no program started. *)
Theorem type_agrees_with_execution `{RT : Runtime} (name : string)
    (args : list string) (st : shell) :
  assoc name shell_builtins = None →
  ∃ line st0,
    builtin_type [name] st = (Ok tt, print line st0) ∧
    ((∃ p evs,
        line = name ++ " is " ++ p ∧
        trace (execute_command name args (print line st0)).2
          = (evs ++ trace (print line st0))%list ∧
        EvSpawn (p :: args) ∈ evs)
     ∨ (line = name ++ ": not found" ∧
        ∃ st',
          execute_command name args (print line st0)
            = (Ok tt, print (name ++ ": command not found") st') ∧
          added is_write_or_probe
                (log (EvExecute name args) (print line st0)) st')).
Proof.
  intros Hnb. unfold builtin_type.
  change (getitem [name] 0) with (Ok name).
  change (negb (length [name] =? 1)) with false. cbv beta iota.
  rewrite Hnb.
  destruct (find_executable_in_path name st) as [r st1] eqn:Hfind.
  assert (∀ line,
    (find_executable_in_path name
       (log (EvExecute name args) (print line st1))).1 = r) as Hrep.
  { intros line.
    apply (find_executable_in_path_repeat name st st1 _ r Hfind);
      reflexivity. }
  assert (∀ line,
    added is_write_or_probe (log (EvExecute name args) (print line st1))
      (find_executable_in_path name
         (log (EvExecute name args) (print line st1))).2) as Hadd.
  { intros line. apply added_find_executable_in_path. }
  destruct r as [p|]; [destruct (truthy p) eqn:Hp|].
  - exists (name ++ " is " ++ p), st1. split; [reflexivity|]. left.
    specialize (Hrep (name ++ " is " ++ p)).
    specialize (Hadd (name ++ " is " ++ p)).
    set (base := print (name ++ " is " ++ p) st1) in *.
    enough (∃ evs,
              trace (execute_command name args base).2
                = (evs ++ trace base)%list ∧
              EvSpawn (p :: args) ∈ evs) as (evs & Htrace & Hin)
      by (exists p, evs; split; [reflexivity|split; assumption]).
    unfold execute_command. rewrite Hnb.
    destruct (find_executable_in_path name (log _ _)) as [r' st2].
    simpl in Hrep, Hadd. subst r'. rewrite Hp.
    match goal with
    | |- context [subprocess_run (os ?s) _ _] => set (st3 := s)
    end.
    assert (∃ evs0, trace st3 = ((EvSpawn (p :: args) :: evs0) ++ trace base)%list)
      as [evs0 Hst3].
    { destruct (added_trans _ _ _ _ Hadd (added_debug
                  ("Running external: " ++ p ++ " " ++ repr_list args) st2))
        as (evs' & Hevs' & _).
      exists (evs' ++ [EvExecute name args])%list. subst st3. simpl.
      rewrite Hevs'. simpl. rewrite <- app_assoc. reflexivity. }
    assert (EvSpawn (p :: args) ∈ EvSpawn (p :: args) :: evs0) as Hin
      by left.
    destruct (subprocess_run (os st3) (environ st3) (p :: args))
      as [returncode o'| |msg]; cbn [snd].
    + assert (trace (set_os o' st3)
              = ((EvSpawn (p :: args) :: evs0) ++ trace base)%list) as Hst4
        by exact Hst3.
      destruct (negb (returncode =? 0)%Z).
      * exact (added_since _ _ _ _ _ _ (added_debug _ _) Hst4 Hin).
      * exact (added_since _ _ _ _ _ _ (added_refl is_write_or_probe _) Hst4 Hin).
    + exact (added_since _ _ _ _ _ _ (added_print _ _) Hst3 Hin).
    + exact (added_since _ _ _ _ _ _ (added_print_err _ _) Hst3 Hin).
  - exists (name ++ ": not found"), st1. split; [reflexivity|]. right.
    split; [reflexivity|].
    unfold execute_command. rewrite Hnb.
    specialize (Hrep (name ++ ": not found")).
    specialize (Hadd (name ++ ": not found")).
    destruct (find_executable_in_path name (log _ _)) as [r' st2].
    simpl in Hrep, Hadd. subst r'. rewrite Hp.
    exists st2. split; [reflexivity|exact Hadd].
  - exists (name ++ ": not found"), st1. split; [reflexivity|]. right.
    split; [reflexivity|].
    unfold execute_command. rewrite Hnb.
    specialize (Hrep (name ++ ": not found")).
    specialize (Hadd (name ++ ": not found")).
    destruct (find_executable_in_path name (log _ _)) as [r' st2].
    simpl in Hrep, Hadd. subst r'.
    exists st2. split; [reflexivity|exact Hadd].
Qed.

Lemma type_agrees_with_execution_witness :
  assoc "ls" shell_builtins = None ∧
  ∃ line st0,
    builtin_type ["ls"] Toy.start = (Ok tt, print line st0) ∧
    ((∃ p evs,
        line = "ls" ++ " is " ++ p ∧
        trace (execute_command "ls" ["-l"] (print line st0)).2
          = (evs ++ trace (print line st0))%list ∧
        EvSpawn (p :: ["-l"]) ∈ evs)
     ∨ (line = "ls" ++ ": not found" ∧
        ∃ st',
          execute_command "ls" ["-l"] (print line st0)
            = (Ok tt, print ("ls" ++ ": command not found") st') ∧
          added is_write_or_probe
                (log (EvExecute "ls" ["-l"]) (print line st0)) st')).
Proof.
  split; [reflexivity|].
  apply (type_agrees_with_execution "ls" ["-l"] Toy.start). reflexivity.
Defined.
